(** * Agentic honeypot: the message pipeline, the session store and the
    finalize-once discipline

    A shallow embedding of [agent_graph.py], [hf_client.py] and [main.py].

    Conventions of the embedding.
    - A Python [str] is a [string] whose characters are the code points
      U+0000 to U+00FF (ASCII and the Latin-1 supplement); the character
      classes of [re] ([\w], [\d], [\s], [\b]) and of [str.lower],
      [str.strip] are given on that range.
    - A Python [float] is a binary64 [float] with the primitive operations.
    - A Python [set] is an object on a heap: the session dictionary and the
      per-message state hold references to it, so that sharing is visible.
    - The outside world (the clock, the generation service, the collector)
      is an environment record read by the handler. *)

From Stdlib Require Import Ascii String ZArith DecimalString Lia.
From Stdlib Require Import Floats.PrimFloat.
From stdpp Require Import base option list gmap strings sorting.

#[local] Set Warnings "-inexact-float,-clear-no-such-hyp".

(** ** Python strings *)

Module PyStr.

Definition code (c : ascii) : N := N_of_ascii c.

Definition in_range (lo hi : N) (c : ascii) : bool :=
  (lo <=? code c)%N && (code c <=? hi)%N.

Definition is_code (n : N) (c : ascii) : bool := (code c =? n)%N.

(** [0-9]; on this range also [\d]. *)
Definition is_digit (c : ascii) : bool := in_range 48 57 c.

Definition is_ascii_upper (c : ascii) : bool := in_range 65 90 c.
Definition is_ascii_lower (c : ascii) : bool := in_range 97 122 c.

(** [a-zA-Z0-9] *)
Definition is_ascii_alnum (c : ascii) : bool :=
  is_ascii_lower c || is_ascii_upper c || is_digit c.

(** [\s] and [str.isspace]: TAB..CR, FS..US, space, NEL, NBSP. *)
Definition is_space (c : ascii) : bool :=
  in_range 9 13 c || in_range 28 32 c || is_code 133 c || is_code 160 c.

(** [\w]: alphanumeric characters and the underscore. Above U+007F these
    are the letters, the superscript digits and the vulgar fractions. *)
Definition is_word (c : ascii) : bool :=
  is_digit c || is_ascii_upper c || is_ascii_lower c || is_code 95 c
  || is_code 170 c || in_range 178 179 c || is_code 181 c
  || in_range 185 186 c || in_range 188 190 c
  || in_range 192 214 c || in_range 216 246 c || in_range 248 255 c.

(** [str.lower] on one character. *)
Definition lower_char (c : ascii) : ascii :=
  if is_ascii_upper c || in_range 192 214 c || in_range 216 222 c
  then ascii_of_N (code c + 32) else c.

Fixpoint lower (s : string) : string :=
  match s with
  | EmptyString => EmptyString
  | String c s' => String (lower_char c) (lower s')
  end.

Fixpoint take (n : nat) (s : string) : string :=
  match n, s with
  | S n', String c s' => String c (take n' s')
  | _, _ => EmptyString
  end.

Fixpoint drop (n : nat) (s : string) : string :=
  match n, s with
  | S n', String _ s' => drop n' s'
  | _, _ => s
  end.

(** [p in t] *)
Fixpoint contains (p t : string) : bool :=
  String.prefix p t ||
  match t with
  | EmptyString => false
  | String _ t' => contains p t'
  end.

Fixpoint lstrip_by (p : ascii -> bool) (s : string) : string :=
  match s with
  | EmptyString => EmptyString
  | String c s' => if p c then lstrip_by p s' else s
  end.

Fixpoint rstrip_by (p : ascii -> bool) (s : string) : string :=
  match s with
  | EmptyString => EmptyString
  | String c s' =>
      match rstrip_by p s' with
      | EmptyString => if p c then EmptyString else String c EmptyString
      | r => String c r
      end
  end.

(** [s.strip()] *)
Definition strip (s : string) : string :=
  rstrip_by is_space (lstrip_by is_space s).

Definition one_of (chars : string) (c : ascii) : bool :=
  existsb (Ascii.eqb c) (list_ascii_of_string chars).

(** [s.rstrip(chars)] *)
Definition rstrip (chars s : string) : string := rstrip_by (one_of chars) s.

Definition LF : ascii := ascii_of_N 10.

(** [s.split("\n")[0]] *)
Fixpoint first_line (s : string) : string :=
  match s with
  | EmptyString => EmptyString
  | String c s' => if Ascii.eqb c LF then EmptyString else String c (first_line s')
  end.

End PyStr.

(** ** The fragment of [re] used by the extractors

    A backtracking matcher in continuation-passing style: quantifiers are
    greedy and give back characters one at a time, alternatives are tried
    in order, as Python's engine does. *)

Module Re.
Import PyStr.

Record charclass := CharClass { negated : bool; member : ascii -> bool }.

Definition pos (p : ascii -> bool) : charclass := CharClass false p.
Definition neg (p : ascii -> bool) : charclass := CharClass true p.

Inductive re :=
| Eps
| Lit (c : ascii)
| Cls (cc : charclass)
| Cat (r1 r2 : re)
| Alt (r1 r2 : re)
| Opt (r : re)                                      (* r?        *)
| Rep (cc : charclass) (lo : nat) (hi : option nat) (* [..]{lo,hi}, [hi = None] when unbounded *)
| WordB                                             (* \b        *)
| NotBehind (cc : charclass)                        (* (?<![..]) *)
| NotAhead (cc : charclass)                         (* (?![..])  *)
| Group (r : re).                                   (* ( r )     *)

Record pattern := Pattern { ignorecase : bool; body : re }.

Definition all_chars : list ascii := map ascii_of_nat (seq 0 256).

(** Membership in a class. Under IGNORECASE the class is folded to lower
    case when the pattern is compiled and the subject character is
    lowered before the test. *)
Definition in_class (ic : bool) (cc : charclass) (x : ascii) : bool :=
  xorb (negated cc)
    (if ic
     then existsb (fun y => member cc y && Ascii.eqb (lower_char y) (lower_char x)) all_chars
     else member cc x).

Definition lit_eq (ic : bool) (c x : ascii) : bool :=
  if ic then Ascii.eqb (lower_char c) (lower_char x) else Ascii.eqb c x.

Definition word_opt (o : option ascii) : bool :=
  match o with Some c => is_word c | None => false end.

Definition head (s : string) : option ascii :=
  match s with String c _ => Some c | EmptyString => None end.

(** [\b]: exactly one of the two neighbours is a word character. *)
Definition boundary (prev : option ascii) (s : string) : bool :=
  xorb (word_opt prev) (word_opt (head s)).

Definition may_repeat (hi : option nat) : bool :=
  match hi with Some O => false | _ => true end.

(** A match in progress: the character before the cursor, the text after
    it, the number of characters consumed and the groups closed so far. *)
Definition cont (R : Type) : Type :=
  option ascii -> string -> nat -> list string -> option R.

Fixpoint rep {R} (p : ascii -> bool) (lo : nat) (hi : option nat)
    (prev : option ascii) (s : string) (n : nat)
    (k : option ascii -> string -> nat -> option R) : option R :=
  let stop := match lo with O => k prev s n | S _ => None end in
  match s with
  | String c s' =>
      if p c && may_repeat hi then
        match rep p (Nat.pred lo) (Nat.pred <$> hi) (Some c) s' (S n) k with
        | Some r => Some r
        | None => stop
        end
      else stop
  | EmptyString => stop
  end.

Fixpoint run {R} (ic : bool) (r : re) (prev : option ascii) (s : string)
    (n : nat) (caps : list string) (k : cont R) : option R :=
  match r with
  | Eps => k prev s n caps
  | Lit c =>
      match s with
      | String x s' => if lit_eq ic c x then k (Some x) s' (S n) caps else None
      | EmptyString => None
      end
  | Cls cc =>
      match s with
      | String x s' => if in_class ic cc x then k (Some x) s' (S n) caps else None
      | EmptyString => None
      end
  | Cat r1 r2 =>
      run ic r1 prev s n caps (fun prev' s' n' caps' => run ic r2 prev' s' n' caps' k)
  | Alt r1 r2 =>
      match run ic r1 prev s n caps k with
      | Some x => Some x
      | None => run ic r2 prev s n caps k
      end
  | Opt r1 =>
      match run ic r1 prev s n caps k with
      | Some x => Some x
      | None => k prev s n caps
      end
  | Rep cc lo hi =>
      rep (in_class ic cc) lo hi prev s n (fun prev' s' n' => k prev' s' n' caps)
  | WordB => if boundary prev s then k prev s n caps else None
  | NotBehind cc =>
      match prev with
      | Some x => if in_class ic cc x then None else k prev s n caps
      | None => k prev s n caps
      end
  | NotAhead cc =>
      match s with
      | String x _ => if in_class ic cc x then None else k prev s n caps
      | EmptyString => k prev s n caps
      end
  | Group r1 =>
      run ic r1 prev s n caps
        (fun prev' s' n' caps' => k prev' s' n' (caps' ++ [take (n' - n) s]))
  end.

(** The match that starts at the cursor, if any: its length and its
    groups. *)
Definition match_at (p : pattern) (prev : option ascii) (s : string)
    : option (nat * list string) :=
  run (ignorecase p) (body p) prev s 0 [] (fun _ _ n caps => Some (n, caps)).

(** Left-to-right scan for non-overlapping matches ([finditer]); [skip]
    counts the characters of the last match still to be passed. No
    pattern of this program matches the empty string. *)
Fixpoint scan (p : pattern) (prev : option ascii) (s : string) (skip : nat)
    : list (string * list string) :=
  match skip with
  | S k =>
      match s with
      | String c s' => scan p (Some c) s' k
      | EmptyString => []
      end
  | O =>
      match match_at p prev s with
      | Some (n, caps) =>
          (take n s, caps) ::
          match s with
          | String c s' => scan p (Some c) s' (Nat.pred n)
          | EmptyString => []
          end
      | None =>
          match s with
          | String c s' => scan p (Some c) s' 0
          | EmptyString => []
          end
      end
  end.

Fixpoint ngroups (r : re) : nat :=
  match r with
  | Cat r1 r2 | Alt r1 r2 => ngroups r1 + ngroups r2
  | Opt r1 => ngroups r1
  | Group r1 => S (ngroups r1)
  | _ => 0
  end.

(** What [findall] hands back for one match: the whole match when the
    pattern has no group, the group when it has one, the tuple of the
    groups when it has several. *)
Inductive pyval :=
| PStr (s : string)
| PTuple (l : list string).

Definition shape (groups : nat) (m : string * list string) : pyval :=
  match groups with
  | 0 => PStr m.1
  | 1 => PStr (List.hd EmptyString m.2)
  | _ => PTuple m.2
  end.

(** [p.findall(s)] *)
Definition findall (p : pattern) (s : string) : list pyval :=
  shape (ngroups (body p)) <$> scan p None s 0.

(** [p.search(s)], as a truth value *)
Fixpoint search_from (p : pattern) (prev : option ascii) (s : string) : bool :=
  match match_at p prev s with
  | Some _ => true
  | None =>
      match s with
      | String c s' => search_from p (Some c) s'
      | EmptyString => false
      end
  end.

Definition search (p : pattern) (s : string) : bool := search_from p None s.

Definition seq_of (rs : list re) : re := foldr Cat Eps rs.

Definition alt_of (r : re) (rs : list re) : re := fold_left Alt rs r.

Definition str (s : string) : re := seq_of (Lit <$> list_ascii_of_string s).

End Re.

(** ** agent_graph.py *)

Module AgentGraph.
Import PyStr Re.

(** *** Regex extractors *)

(** [(https?://[^\s]+)], IGNORECASE *)
Definition RE_URL : pattern :=
  Pattern true
    (Group (seq_of [str "http"; Opt (Lit "s"); str "://"; Rep (neg is_space) 1 None])).

Definition is_slug (c : ascii) : bool :=
  is_ascii_upper c || is_ascii_lower c || is_digit c || one_of "_-" c.

(** [\b(?:bit\.ly|tinyurl\.com|t\.co|goo\.gl|cutt\.ly|rb\.gy)/[A-Za-z0-9_-]+\b],
    IGNORECASE *)
Definition RE_SHORT : pattern :=
  Pattern true
    (seq_of [WordB;
             alt_of (str "bit.ly")
               [str "tinyurl.com"; str "t.co"; str "goo.gl"; str "cutt.ly"; str "rb.gy"];
             Lit "/"; Rep (pos is_slug) 1 None; WordB]).

(** [[\w.-]] *)
Definition is_word_dot_dash (c : ascii) : bool := is_word c || one_of ".-" c.

(** [[a-zA-Z0-9._-]] *)
Definition is_upi_local (c : ascii) : bool := is_ascii_alnum c || one_of "._-" c.

(** [(?<![\w.-])([a-zA-Z0-9._-]{2,})@([a-zA-Z0-9]{2,})(?![\w.-])] *)
Definition RE_UPI : pattern :=
  Pattern false
    (seq_of [NotBehind (pos is_word_dot_dash);
             Group (Rep (pos is_upi_local) 2 None);
             Lit "@";
             Group (Rep (pos is_ascii_alnum) 2 None);
             NotAhead (pos is_word_dot_dash)]).

(** [[-\s]] *)
Definition is_dash_or_space (c : ascii) : bool := one_of "-" c || is_space c.

(** [[6-9]] *)
Definition is_6_to_9 (c : ascii) : bool := in_range 54 57 c.

(** [\b(?:\+91[-\s]?)?[6-9]\d{9}\b] *)
Definition RE_PHONE : pattern :=
  Pattern false
    (seq_of [WordB;
             Opt (seq_of [str "+91"; Opt (Cls (pos is_dash_or_space))]);
             Cls (pos is_6_to_9);
             Rep (pos is_digit) 9 (Some 9);
             WordB]).

(** [\b\d{9,18}\b] *)
Definition RE_BANK_AC : pattern :=
  Pattern false (seq_of [WordB; Rep (pos is_digit) 9 (Some 18); WordB]).

Definition SUSPICIOUS_KEYWORDS : list string :=
  ["urgent"; "verify"; "account blocked"; "blocked today"; "suspended"; "freeze";
   "kyc"; "otp"; "pin"; "cvv"; "click"; "link"; "refund"; "cashback";
   "upi"; "bank account"; "share details"; "immediately"].


Definition HIGH : list string :=
  ["otp"; "cvv"; "pin"; "verify immediately"; "blocked today";
   "account will be blocked"; "share your upi"; "click the link";
   "refund"; "cashback"; "kyc update"; "suspended"].

(** [min(a, b)]: the first argument unless the second is smaller. *)
Definition py_min (a b : float) : float := if PrimFloat.ltb b a then b else a.

Definition _score_scam (text : string) : float :=
  let t := lower text in
  let score := 0%float in
  let score :=
    fold_left (fun score p => if contains p t then (score + 0.18)%float else score)
      HIGH score in
  let score :=
    fold_left (fun score kw => if contains kw t then (score + 0.05)%float else score)
      SUSPICIOUS_KEYWORDS score in
  let score :=
    if search RE_URL text || search RE_SHORT text then (score + 0.25)%float else score in
  let score := if search RE_UPI text then (score + 0.25)%float else score in
  let score := if search RE_PHONE text then (score + 0.10)%float else score in
  py_min score 1.0%float.

(** *** Sets on the heap *)

#[global] Instance pyval_eq_dec : EqDecision pyval.
Proof. solve_decision. Defined.

#[global] Instance pyval_countable : Countable pyval.
Proof.
  refine (inj_countable'
            (fun v => match v with PStr s => inl s | PTuple l => inr l end)
            (fun x => match x with inl s => PStr s | inr l => PTuple l end) _).
  intros []; reflexivity.
Defined.

Definition loc := positive.

Abbreviation pyset := (gset pyval).
Abbreviation heap := (gmap loc (gset pyval)).

(** The members of the set object at [l]. *)
Definition deref (h : heap) (l : loc) : pyset := default ∅ (h !! l).

(** [set()] *)
Definition new_set (h : heap) : loc * heap :=
  let l := fresh (dom h) in (l, <[l := ∅]> h).

(** [s.add(x)], in place *)
Definition set_add (l : loc) (x : pyval) (h : heap) : heap :=
  <[l := {[x]} ∪ deref h l]> h.

(** *** The per-message state, a [TypedDict] with optional keys *)

Record AgentState := MkState {
  sessionId : option string;
  incoming_text : string;
  sender : option string;
  history : option (list (string * string));
  scamDetected : option bool;
  confidence : option float;
  stage : option string;
  bankAccounts : option loc;
  upiIds : option loc;
  phishingLinks : option loc;
  phoneNumbers : option loc;
  suspiciousKeywords : option loc;
  reply : option string;
  shouldFinalize : option bool;
  agentNotes : option string
}.

Definition with_detect (conf : float) (scam : bool) (stg : string) (st : AgentState) :=
  MkState (sessionId st) (incoming_text st) (sender st) (history st)
    (Some scam) (Some conf) (Some stg)
    (bankAccounts st) (upiIds st) (phishingLinks st) (phoneNumbers st)
    (suspiciousKeywords st) (reply st) (shouldFinalize st) (agentNotes st).

Definition with_sets (bank upi links phones kws : loc) (st : AgentState) :=
  MkState (sessionId st) (incoming_text st) (sender st) (history st)
    (scamDetected st) (confidence st) (stage st)
    (Some bank) (Some upi) (Some links) (Some phones) (Some kws)
    (reply st) (shouldFinalize st) (agentNotes st).

Definition with_shouldFinalize (b : bool) (st : AgentState) :=
  MkState (sessionId st) (incoming_text st) (sender st) (history st)
    (scamDetected st) (confidence st) (stage st)
    (bankAccounts st) (upiIds st) (phishingLinks st) (phoneNumbers st)
    (suspiciousKeywords st) (reply st) (Some b) (agentNotes st).

Definition with_reply (r : string) (st : AgentState) :=
  MkState (sessionId st) (incoming_text st) (sender st) (history st)
    (scamDetected st) (confidence st) (stage st)
    (bankAccounts st) (upiIds st) (phishingLinks st) (phoneNumbers st)
    (suspiciousKeywords st) (Some r) (shouldFinalize st) (agentNotes st).

(** *** The nodes *)

Definition node_detect (state : AgentState) : AgentState :=
  let conf := _score_scam (incoming_text state) in
  let scam := PrimFloat.leb 0.35%float conf in
  with_detect conf scam (if scam then "engage" else "observe") state.

(** [state.setdefault(key, set())] *)
Definition setdefault (cur : option loc) (h : heap) : loc * heap :=
  match cur with
  | Some l => (l, h)
  | None => new_set h
  end.

(** [m.strip()]; a tuple has no such method. *)
Definition py_strip (m : pyval) : option string :=
  match m with
  | PStr s => Some (strip s)
  | PTuple _ => None
  end.

(** [len(m)] *)
Definition py_len (m : pyval) : nat :=
  match m with
  | PStr s => String.length s
  | PTuple l => length l
  end.

(** How a computation on the heap ends: with a value, or with an
    exception raised; the heap is left as it was at that point. *)
Inductive outcome (A : Type) :=
| Done (a : A) (h : heap)
| Raised (h : heap).
Arguments Done {A} a h.
Arguments Raised {A} h.

Definition final_heap {A} (o : outcome A) : heap :=
  match o with Done _ h => h | Raised h => h end.

(** A [for] loop whose body updates the heap and may raise. *)
Fixpoint for_each {A} (l : list A) (body : A -> heap -> outcome unit) (h : heap)
    : outcome unit :=
  match l with
  | [] => Done tt h
  | x :: l' =>
      match body x h with
      | Done _ h' => for_each l' body h'
      | Raised h' => Raised h'
      end
  end.

(** [state["phishingLinks"].add(m.strip().rstrip(").,;"))] *)
Definition add_link (l : loc) (m : pyval) (h : heap) : outcome unit :=
  match py_strip m with
  | Some s => Done tt (set_add l (PStr (rstrip ").,;" s)) h)
  | None => Raised h
  end.

(** [state["phoneNumbers"].add(m.strip())] *)
Definition add_phone (l : loc) (m : pyval) (h : heap) : outcome unit :=
  match py_strip m with
  | Some s => Done tt (set_add l (PStr s) h)
  | None => Raised h
  end.

Definition add_upi (l : loc) (m : pyval) (h : heap) : outcome unit :=
  Done tt (set_add l m h).

Definition add_bank (l : loc) (m : pyval) (h : heap) : outcome unit :=
  Done tt (if (9 <=? py_len m)%nat then set_add l m h else h).

Definition add_keyword (l : loc) (lower : string) (kw : string) (h : heap) : outcome unit :=
  Done tt (if contains kw lower then set_add l (PStr kw) h else h).

(** Sequencing of loops: the next one runs unless this one raised. *)
Definition and_then {A} (o : outcome unit) (k : heap -> outcome A) : outcome A :=
  match o with
  | Done _ h => k h
  | Raised h => Raised h
  end.

Definition node_extract (state : AgentState) (h : heap) : outcome AgentState :=
  let text := incoming_text state in
  let '(bank, h) := setdefault (bankAccounts state) h in
  let '(upi, h) := setdefault (upiIds state) h in
  let '(links, h) := setdefault (phishingLinks state) h in
  let '(phones, h) := setdefault (phoneNumbers state) h in
  let '(kws, h) := setdefault (suspiciousKeywords state) h in
  let state := with_sets bank upi links phones kws state in
  and_then (for_each (findall RE_URL text) (add_link links) h) (fun h =>
  and_then (for_each (findall RE_SHORT text) (add_link links) h) (fun h =>
  and_then (for_each (findall RE_UPI text) (add_upi upi) h) (fun h =>
  and_then (for_each (findall RE_PHONE text) (add_phone phones) h) (fun h =>
  and_then (for_each (findall RE_BANK_AC text) (add_bank bank) h) (fun h =>
  let lower := lower text in
  and_then (for_each SUSPICIOUS_KEYWORDS (add_keyword kws lower) h) (fun h =>
  Done state h)))))).

(** [len(state.get(key, set())) > 0] *)
Definition has_members (o : option loc) (h : heap) : bool :=
  match o with
  | Some l => (0 <? size (deref h l))%nat
  | None => false
  end.

Definition _should_finalize (FINALIZE_MIN_ARTIFACTS : Z) (state : AgentState) (h : heap)
    : bool :=
  let strong := 0%Z in
  let strong := if has_members (phishingLinks state) h then (strong + 1)%Z else strong in
  let strong := if has_members (upiIds state) h then (strong + 1)%Z else strong in
  let strong := if has_members (phoneNumbers state) h then (strong + 1)%Z else strong in
  let strong := if has_members (bankAccounts state) h then (strong + 1)%Z else strong in
  (FINALIZE_MIN_ARTIFACTS <=? strong)%Z.

(** [bool(state.get(key))] for a boolean key *)
Definition truthy (o : option bool) : bool := default false o.

Definition node_decide (FINALIZE_MIN_ARTIFACTS : Z) (state : AgentState) (h : heap)
    : AgentState :=
  with_shouldFinalize
    (truthy (scamDetected state) && _should_finalize FINALIZE_MIN_ARTIFACTS state h)
    state.

(** What awaiting the generation call gives: a text, or an exception. *)
Inductive hf_result :=
| HfText (s : string)
| HfRaise.

Definition chat_fn : Type := list (string * string) -> nat -> hf_result.

(** The reply constants hold characters above U+00FF (dashes, quotes),
    written here as in the source file, by their UTF-8 bytes. They are
    only compared with each other and with the empty string. *)
Definition CLARIFY_REPLY : string :=
  "Sorry—who is this and which bank/service is this about? I didn’t request anything.".

Definition FALLBACK_REPLY : string :=
  "I’m confused—can you resend the link and tell me the exact steps? My app isn’t opening properly.".

Definition SYSTEM_PROMPT : string :=
  "You are a normal person in India replying over SMS/WhatsApp. You are anxious and slightly confused, willing to cooperate. Goal: ask questions that make the other person reveal details (UPI ID, phone number, link, bank account, steps). Never share OTP, PIN, CVV, passwords or any real personal info. Keep replies short (1-2 sentences), natural, non-robotic.".

Definition join_sp (l : list string) : string :=
  match l with
  | [] => ""
  | x :: l' => fold_left (fun acc y => acc +:+ " " +:+ y) l' x
  end.

(** The hint and the two messages of the generation request. *)
Definition reply_hint (state : AgentState) (h : heap) : string :=
  let text_lower := lower (incoming_text state) in
  let artifacts := [] in
  let artifacts :=
    if has_members (phishingLinks state) h
    then artifacts ++ ["They already sent a link; ask to resend / domain name."]
    else artifacts in
  let artifacts :=
    if has_members (upiIds state) h || contains "upi" text_lower
    then artifacts ++ ["Try to get their UPI ID / receiver name shown on screen."]
    else artifacts in
  let artifacts :=
    if contains "otp" text_lower
    then artifacts ++ ["Say OTP not received; ask steps/link instead."]
    else artifacts in
  match artifacts with
  | [] => "Ask which bank, exact steps, and link/UPI shown."
  | _ => join_sp artifacts
  end.

Definition reply_messages (state : AgentState) (h : heap) : list (string * string) :=
  [("system", SYSTEM_PROMPT);
   ("user", "Latest scammer message: " +:+ incoming_text state
            +:+ String LF (String LF "Guidance: ") +:+ reply_hint state h)].

Definition node_reply_llm (hf_chat : chat_fn) (state : AgentState) (h : heap) : AgentState :=
  if negb (truthy (scamDetected state)) then with_reply CLARIFY_REPLY state
  else
    match hf_chat (reply_messages state h) 1000%nat with
    | HfText reply =>
        let first_line := strip (first_line (strip reply)) in
        with_reply (take 500 first_line) state
    | HfRaise => with_reply FALLBACK_REPLY state
    end.

(** [build_graph(hf_client)]: the compiled graph runs detect, extract,
    decide and reply in this order on one state; the values of the state
    are passed on as they are, the sets by reference. *)
Definition graph_ainvoke (FINALIZE_MIN_ARTIFACTS : Z) (hf_chat : chat_fn)
    (state : AgentState) (h : heap) : outcome AgentState :=
  let state := node_detect state in
  match node_extract state h with
  | Raised h => Raised h
  | Done state h =>
      let state := node_decide FINALIZE_MIN_ARTIFACTS state h in
      let state := node_reply_llm hf_chat state h in
      Done state h
  end.

End AgentGraph.

(** ** main.py *)

Module Main.
Import PyStr Re.
Import AgentGraph (loc, heap, pyset, deref, new_set, chat_fn, outcome, Done, Raised).

Record config := Config {
  API_KEY : string;
  FINALIZE_MIN_ARTIFACTS : Z
}.

(** The values taken when the environment variables are not set. *)
Definition default_config : config :=
  {| API_KEY := "CHANGE_ME"; FINALIZE_MIN_ARTIFACTS := 3 |}.

Record Message := { sender : string; text : string; timestamp : Z }.

Record Metadata := {
  channel : option string;
  language : option string;
  locale : option string
}.

Record IncomingEvent := {
  sessionId : string;
  message : Message;
  conversationHistory : list Message;
  metadata : option Metadata
}.

(** The dictionary kept per session; the five sets are references. *)
Record session := Session {
  createdAt : Z;
  updatedAt : Z;
  totalMessagesExchanged : Z;
  finalized : bool;
  agentNotes : string;
  bankAccounts : loc;
  upiIds : loc;
  phishingLinks : loc;
  phoneNumbers : loc;
  suspiciousKeywords : loc
}.

(** The five lists of [extractedIntelligence] *)
Record intelligence := {
  i_bankAccounts : list pyval;
  i_upiIds : list pyval;
  i_phishingLinks : list pyval;
  i_phoneNumbers : list pyval;
  i_suspiciousKeywords : list pyval
}.

(** The body posted to the collector *)
Record payload := {
  p_sessionId : string;
  p_scamDetected : bool;
  p_totalMessagesExchanged : Z;
  p_extractedIntelligence : intelligence;
  p_agentNotes : string
}.

(** What the post to the collector gives: a response with its status
    code, or an exception (timeout, transport failure). *)
Inductive post_result :=
| PostStatus (status_code : Z)
| PostRaise.

(** The outside world during one request. The clock is read once. *)
Record env := {
  now_ts : Z;
  hf_chat : chat_fn;
  guvi_post : payload -> post_result
}.

(** The process: the two registries, the heap of set objects, and the
    posts made to the collector so far, oldest first. *)
Record world := World {
  SESSIONS : gmap string session;
  LOCKS : gset string;
  store : heap;
  outbox : list payload
}.

Definition initial_world : world := World ∅ ∅ ∅ [].

Definition get_lock (session_id : string) (w : world) : world :=
  if decide (session_id ∈ LOCKS w) then w
  else World (SESSIONS w) ({[session_id]} ∪ LOCKS w) (store w) (outbox w).

Definition get_session (now : Z) (session_id : string) (w : world) : session * world :=
  match SESSIONS w !! session_id with
  | Some sess => (sess, w)
  | None =>
      let '(bank, h) := new_set (store w) in
      let '(upi, h) := new_set h in
      let '(links, h) := new_set h in
      let '(phones, h) := new_set h in
      let '(kws, h) := new_set h in
      let sess :=
        {| createdAt := now; updatedAt := now; totalMessagesExchanged := 0;
           finalized := false; agentNotes := "";
           bankAccounts := bank; upiIds := upi; phishingLinks := links;
           phoneNumbers := phones; suspiciousKeywords := kws |} in
      (sess, World (<[session_id := sess]> (SESSIONS w)) (LOCKS w) h (outbox w))
  end.

(** Writing through the reference [sess] changes the entry of the registry. *)
Definition put_session (session_id : string) (sess : session) (w : world) : world :=
  World (<[session_id := sess]> (SESSIONS w)) (LOCKS w) (store w) (outbox w).

Definition with_store (h : heap) (w : world) : world :=
  World (SESSIONS w) (LOCKS w) h (outbox w).

Definition with_outbox (o : list payload) (w : world) : world :=
  World (SESSIONS w) (LOCKS w) (store w) o.

(** *** [sorted(list(s))] *)

Fixpoint strs_leb (a b : list string) : bool :=
  match a, b with
  | [], _ => true
  | _ :: _, [] => false
  | x :: a', y :: b' =>
      if String.eqb x y then strs_leb a' b' else String.leb x y
  end.

Definition as_str (v : pyval) : option string :=
  match v with PStr s => Some s | PTuple _ => None end.

Definition as_tuple (v : pyval) : option (list string) :=
  match v with PTuple l => Some l | PStr _ => None end.

(** Strings are ordered by code point, tuples of strings
    lexicographically; comparing a string with a tuple raises, which
    every sort of a mixed list does. *)
Definition py_sorted (s : pyset) : option (list pyval) :=
  let l := elements s in
  match mapM as_str l, mapM as_tuple l with
  | Some strs, _ => Some (PStr <$> merge_sort (fun x y => String.leb x y) strs)
  | None, Some tuples => Some (PTuple <$> merge_sort (fun x y => strs_leb x y) tuples)
  | None, None => None
  end.

Definition sorted_intelligence (sess : session) (h : heap) : option intelligence :=
  bank ← py_sorted (deref h (bankAccounts sess));
  upi ← py_sorted (deref h (upiIds sess));
  links ← py_sorted (deref h (phishingLinks sess));
  phones ← py_sorted (deref h (phoneNumbers sess));
  kws ← py_sorted (deref h (suspiciousKeywords sess));
  Some {| i_bankAccounts := bank; i_upiIds := upi; i_phishingLinks := links;
          i_phoneNumbers := phones; i_suspiciousKeywords := kws |}.

(** *** The report to the collector *)

Definition with_notes (notes : string) (sess : session) : session :=
  Session (createdAt sess) (updatedAt sess) (totalMessagesExchanged sess)
    (finalized sess) notes
    (bankAccounts sess) (upiIds sess) (phishingLinks sess) (phoneNumbers sess)
    (suspiciousKeywords sess).

(** [str(n)] *)
Definition str_of_int (n : Z) : string := NilZero.string_of_int (Z.to_int n).

(** [a or b] on strings *)
Definition or_str (a b : string) : string :=
  match a with EmptyString => b | _ => a end.

(** How the call of the reporter ends: the session as it leaves it, the
    posts made, and whether an exception came out of it. *)
Record callback_end := {
  cb_raised : bool;
  cb_session : session;
  cb_outbox : list payload
}.

Definition send_guvi_callback (e : env) (session_id : string) (sess : session)
    (h : heap) (sent : list payload) : callback_end :=
  match sorted_intelligence sess h with
  | None => {| cb_raised := true; cb_session := sess; cb_outbox := sent |}
  | Some intel =>
      let payload :=
        {| p_sessionId := session_id;
           p_scamDetected := true;
           p_totalMessagesExchanged := totalMessagesExchanged sess;
           p_extractedIntelligence := intel;
           p_agentNotes :=
             or_str (agentNotes sess)
               "Scammer used urgency + verification tactics; extracted artifacts." |} in
      let sent := sent ++ [payload] in
      match guvi_post e payload with
      | PostRaise => {| cb_raised := true; cb_session := sess; cb_outbox := sent |}
      | PostStatus status_code =>
          let sess :=
            if (400 <=? status_code)%Z
            then with_notes ((agentNotes sess +:+ " ") +:+
                             ("GUVI callback failed: " +:+ str_of_int status_code)) sess
            else sess in
          {| cb_raised := false; cb_session := sess; cb_outbox := sent |}
      end
  end.

(** *** The [/message] endpoint *)

Record agent_summary := {
  a_confidence : float;
  a_totalMessagesExchanged : Z;
  a_finalized : bool
}.

Record response := {
  r_status : string;
  r_reply : string;
  r_scamDetected : bool;
  r_extractedIntelligence : intelligence;
  r_agentState : agent_summary
}.

Inductive http_response :=
| Http401                      (* the key is wrong or missing *)
| Http500                      (* an exception reached the handler of last resort *)
| Http200 (content : response).

Definition DEFAULT_REPLY : string :=
  "Okayâ€”what should I do next?".

Definition touch (now : Z) (sess : session) : session :=
  Session (createdAt sess) now (totalMessagesExchanged sess + 1)
    (finalized sess) (agentNotes sess)
    (bankAccounts sess) (upiIds sess) (phishingLinks sess) (phoneNumbers sess)
    (suspiciousKeywords sess).

(** [event.conversationHistory[-6:]], as sender and text *)
Definition history_norm (event : IncomingEvent) : list (string * string) :=
  let l := conversationHistory event in
  (fun m => (sender m, text m)) <$> skipn (List.length l - 6) l.

Definition state_in (event : IncomingEvent) (sess : session) : AgentGraph.AgentState :=
  {| AgentGraph.sessionId := Some (sessionId event);
     AgentGraph.incoming_text := text (message event);
     AgentGraph.sender := Some (sender (message event));
     AgentGraph.history := Some (history_norm event);
     AgentGraph.scamDetected := None;
     AgentGraph.confidence := None;
     AgentGraph.stage := None;
     AgentGraph.bankAccounts := Some (bankAccounts sess);
     AgentGraph.upiIds := Some (upiIds sess);
     AgentGraph.phishingLinks := Some (phishingLinks sess);
     AgentGraph.phoneNumbers := Some (phoneNumbers sess);
     AgentGraph.suspiciousKeywords := Some (suspiciousKeywords sess);
     AgentGraph.reply := None;
     AgentGraph.shouldFinalize := None;
     AgentGraph.agentNotes := None |}.

(** "Persist intel back": each key of the session is assigned the value
    of the same key of the final state, its own value when the state
    has none. *)
Definition persist (state_out : AgentGraph.AgentState) (sess : session) : session :=
  Session (createdAt sess) (updatedAt sess) (totalMessagesExchanged sess)
    (finalized sess) (agentNotes sess)
    (default (bankAccounts sess) (AgentGraph.bankAccounts state_out))
    (default (upiIds sess) (AgentGraph.upiIds state_out))
    (default (phishingLinks sess) (AgentGraph.phishingLinks state_out))
    (default (phoneNumbers sess) (AgentGraph.phoneNumbers state_out))
    (default (suspiciousKeywords sess) (AgentGraph.suspiciousKeywords state_out)).

Definition mark_finalized (sess : session) : session :=
  Session (createdAt sess) (updatedAt sess) (totalMessagesExchanged sess)
    true "Detected scam intent; extracted artifacts from conversation."
    (bankAccounts sess) (upiIds sess) (phishingLinks sess) (phoneNumbers sess)
    (suspiciousKeywords sess).

(** The [if scam and (not sess["finalized"]) and should_finalize:] block *)
Definition finalize_step (e : env) (session_id : string) (scam should_finalize : bool)
    (sess : session) (w : world) : session * world :=
  if scam && negb (finalized sess) && should_finalize then
    let sess := mark_finalized sess in
    let cb := send_guvi_callback e session_id sess (store w) (outbox w) in
    let sess :=
      if cb_raised cb
      then with_notes ((agentNotes (cb_session cb) +:+ " ") +:+ "GUVI callback exception.")
             (cb_session cb)
      else cb_session cb in
    (sess, put_session session_id sess (with_outbox (cb_outbox cb) w))
  else (sess, w).

(** [state_out.get("reply") or "..."] *)
Definition reply_or_default (state_out : AgentGraph.AgentState) : string :=
  or_str (default "" (AgentGraph.reply state_out)) DEFAULT_REPLY.

(** The lock, the session, its time stamp and its counter. *)
Definition enter (e : env) (session_id : string) (w : world) : session * world :=
  let w := get_lock session_id w in
  let '(sess, w) := get_session (now_ts e) session_id w in
  let sess := touch (now_ts e) sess in
  (sess, put_session session_id sess w).

(** "Persist intel back", on the heap the pipeline left. *)
Definition merge_back (session_id : string) (state_out : AgentGraph.AgentState) (h : heap)
    (sess : session) (w : world) : session * world :=
  let sess := persist state_out sess in
  (sess, put_session session_id sess (with_store h w)).

(** The response; sorting a set may raise. *)
Definition respond (state_out : AgentGraph.AgentState) (sess : session) (w : world)
    : http_response :=
  let scam := default false (AgentGraph.scamDetected state_out) in
  let conf := default 0%float (AgentGraph.confidence state_out) in
  let reply := reply_or_default state_out in
  match sorted_intelligence sess (store w) with
  | None => Http500
  | Some intel =>
      Http200
        {| r_status := "success";
           r_reply := reply;
           r_scamDetected := scam;
           r_extractedIntelligence := intel;
           r_agentState :=
             {| a_confidence := conf;
                a_totalMessagesExchanged := totalMessagesExchanged sess;
                a_finalized := finalized sess |} |}
  end.

Definition handle_message (cfg : config) (e : env) (event : IncomingEvent)
    (x_api_key : option string) (w : world) : http_response * world :=
  if negb (bool_decide (x_api_key = Some (API_KEY cfg))) then (Http401, w)
  else
    let sid := sessionId event in
    let '(sess, w) := enter e sid w in
    match AgentGraph.graph_ainvoke (FINALIZE_MIN_ARTIFACTS cfg) (hf_chat e)
            (state_in event sess) (store w) with
    | Raised h => (Http500, with_store h w)
    | Done state_out h =>
        let '(sess, w) := merge_back sid state_out h sess w in
        let scam := default false (AgentGraph.scamDetected state_out) in
        let should_finalize := default false (AgentGraph.shouldFinalize state_out) in
        let '(sess, w) := finalize_step e sid scam should_finalize sess w in
        (respond state_out sess w, w)
    end.

(** A request as it reaches the endpoint, with the outside world it meets. *)
Record request := {
  q_env : env;
  q_event : IncomingEvent;
  q_key : option string
}.

(** The requests of a list handled one after the other. *)
Definition serve (cfg : config) (qs : list request) (w : world) : world :=
  fold_left (fun w q => (handle_message cfg (q_env q) (q_event q) (q_key q) w).2) qs w.

End Main.

(** * Properties *)

Import PyStr Re AgentGraph.

#[global] Arguments findall : simpl never.
#[global] Arguments search : simpl never.
#[global] Arguments match_at : simpl never.
#[global] Arguments _score_scam : simpl never.
#[global] Arguments lower : simpl never.
#[global] Arguments contains : simpl never.

(** ** The scorer *)

(** The additive heuristic as the specification words it. *)
Module ScoreSpec.

(** [term] occurs in [text] as a substring, whatever the case. *)
Definition found (text term : string) : bool :=
  contains (lower term) (lower text).

Definition hits (vocab : list string) (text : string) : nat :=
  length (List.filter (found text) vocab).

(** [c] added [n] times, one after the other. *)
Definition add_times (n : nat) (c x : float) : float :=
  Nat.iter n (fun y => (y + c)%float) x.

Definition link_present (text : string) : bool :=
  search RE_URL text || search RE_SHORT text.

Definition bonus (present : bool) (c x : float) : float :=
  if present then (x + c)%float else x.

(** The sum before clipping, from the numbers of hits and the three
    pattern flags. *)
Definition total (h k : nat) (link upi phone : bool) : float :=
  bonus phone 0.10 (bonus upi 0.25 (bonus link 0.25
    (add_times k 0.05 (add_times h 0.18 0)))).

Definition clip (x : float) : float := if PrimFloat.ltb 1 x then 1%float else x.

Definition heuristic (text : string) : float :=
  clip (total (hits HIGH text) (hits SUSPICIOUS_KEYWORDS text)
          (link_present text) (search RE_UPI text) (search RE_PHONE text)).

(** The same sum in exact arithmetic, in hundredths. *)
Definition points (h k : nat) (link upi phone : bool) : Z :=
  18 * Z.of_nat h + 5 * Z.of_nat k
  + (if link then 25 else 0) + (if upi then 25 else 0) + (if phone then 10 else 0).

End ScoreSpec.

Section Scorer.
Import ScoreSpec.

Lemma fold_add_times (f : string -> bool) (c : float) (l : list string) (x : float) :
  fold_left (fun score p => if f p then (score + c)%float else score) l x
  = add_times (length (List.filter f l)) c x.
Proof.
  revert x. induction l as [|p l IH]; intros x; simpl; [reflexivity|].
  rewrite IH. destruct (f p); [|reflexivity].
  cbn [length]. unfold add_times. rewrite Nat.iter_succ_r. reflexivity.
Qed.

Lemma filter_ext_Forall {A} (f g : A -> bool) (l : list A) :
  Forall (fun x => f x = g x) l -> List.filter f l = List.filter g l.
Proof.
  induction 1 as [|x l Hx _ IH]; simpl; [reflexivity|].
  rewrite Hx, IH. reflexivity.
Qed.

Lemma filter_length_le {A} (f : A -> bool) (l : list A) :
  (length (List.filter f l) <= length l)%nat.
Proof. induction l; simpl; [lia|]. destruct (f _); simpl; lia. Qed.

(** The vocabularies are written in lower case. *)
Lemma HIGH_lower : Forall (fun p => lower p = p) HIGH.
Proof. repeat constructor. Qed.

Lemma KEYWORDS_lower : Forall (fun p => lower p = p) SUSPICIOUS_KEYWORDS.
Proof. repeat constructor. Qed.

Lemma hits_as_in_source (vocab : list string) (text : string) :
  Forall (fun p => lower p = p) vocab ->
  length (List.filter (fun p => contains p (lower text)) vocab) = hits vocab text.
Proof.
  intros H. unfold hits. f_equal. apply filter_ext_Forall.
  eapply Forall_impl; [exact H|]. intros p Hp. unfold found. simpl. rewrite Hp. reflexivity.
Qed.

Lemma hits_HIGH_le text : (hits HIGH text <= 12)%nat.
Proof. apply (filter_length_le _ HIGH). Qed.

Lemma hits_KEYWORDS_le text : (hits SUSPICIOUS_KEYWORDS text <= 18)%nat.
Proof. apply (filter_length_le _ SUSPICIOUS_KEYWORDS). Qed.

Lemma score_scam_heuristic text : _score_scam text = heuristic text.
Proof.
  unfold _score_scam, heuristic, total, bonus, clip, py_min, link_present.
  rewrite !fold_add_times.
  rewrite (hits_as_in_source HIGH text HIGH_lower).
  rewrite (hits_as_in_source SUSPICIOUS_KEYWORDS text KEYWORDS_lower).
  reflexivity.
Qed.

(** Every sum the heuristic can reach, checked one by one. *)
Definition for_all_totals (P : nat -> nat -> bool -> bool -> bool -> bool) : bool :=
  forallb (fun h => forallb (fun k =>
    forallb (fun a => forallb (fun b => forallb (fun c => P h k a b c)
      [true; false]) [true; false]) [true; false]) (seq 0 19)) (seq 0 13).

Lemma for_all_totals_spec P :
  for_all_totals P = true ->
  forall h k a b c, (h <= 12)%nat -> (k <= 18)%nat -> P h k a b c = true.
Proof.
  unfold for_all_totals. intros H h k a b c Hh Hk.
  rewrite forallb_forall in H. specialize (H h). rewrite in_seq in H.
  specialize (H ltac:(lia)). rewrite forallb_forall in H. specialize (H k).
  rewrite in_seq in H. specialize (H ltac:(lia)).
  rewrite forallb_forall in H. specialize (H a ltac:(destruct a; simpl; auto)).
  rewrite forallb_forall in H. specialize (H b ltac:(destruct b; simpl; auto)).
  rewrite forallb_forall in H. apply H. destruct c; simpl; auto.
Qed.

Lemma clip_in_unit_interval h k a b c :
  (h <= 12)%nat -> (k <= 18)%nat ->
  PrimFloat.leb 0 (clip (total h k a b c)) && PrimFloat.leb (clip (total h k a b c)) 1 = true.
Proof.
  apply (for_all_totals_spec
           (fun h k a b c => PrimFloat.leb 0 (clip (total h k a b c))
                             && PrimFloat.leb (clip (total h k a b c)) 1)).
  vm_compute. reflexivity.
Qed.

(** Rounding never moves a sum across the threshold: the comparison of
    the binary64 sum with 0.35 is the comparison of the exact sum with
    35 hundredths. *)
Lemma threshold_exact h k a b c :
  (h <= 12)%nat -> (k <= 18)%nat ->
  PrimFloat.leb 0.35 (clip (total h k a b c)) = (35 <=? points h k a b c)%Z.
Proof.
  intros Hh Hk.
  apply Bool.eqb_prop.
  revert h k a b c Hh Hk.
  apply (for_all_totals_spec
           (fun h k a b c => Bool.eqb (PrimFloat.leb 0.35 (clip (total h k a b c)))
                               (35 <=? points h k a b c)%Z)).
  vm_compute. reflexivity.
Qed.

Lemma node_detect_confidence st :
  AgentGraph.confidence (node_detect st) = Some (_score_scam (incoming_text st)).
Proof. reflexivity. Qed.

Lemma node_detect_scamDetected st :
  AgentGraph.scamDetected (node_detect st)
  = Some (PrimFloat.leb 0.35 (_score_scam (incoming_text st))).
Proof. reflexivity. Qed.

End Scorer.

(** ** The heap of sets only grows *)

Section Heap.

(** Every set of [h'] holds the members it has in [h]. *)
Definition heap_le (h h' : heap) : Prop := forall l, deref h l ⊆ deref h' l.

#[global] Instance heap_le_preorder : PreOrder heap_le.
Proof.
  split.
  - intros h l. reflexivity.
  - intros h1 h2 h3 H12 H23 l. etransitivity; [apply H12 | apply H23].
Qed.

Lemma deref_set_add_eq l x h : deref (set_add l x h) l = {[x]} ∪ deref h l.
Proof. unfold set_add, deref at 1. rewrite lookup_insert_eq. reflexivity. Qed.

Lemma deref_set_add_ne l l' x h : l ≠ l' -> deref (set_add l x h) l' = deref h l'.
Proof. intros Hne. unfold set_add, deref at 1. rewrite lookup_insert_ne by done. reflexivity. Qed.

Lemma heap_le_set_add l x h : heap_le h (set_add l x h).
Proof.
  intros l'. destruct (decide (l = l')) as [<-|Hne].
  - rewrite deref_set_add_eq. set_solver.
  - rewrite deref_set_add_ne by done. reflexivity.
Qed.

Lemma new_set_fresh h : (new_set h).1 ∉ dom h.
Proof. unfold new_set. simpl. apply is_fresh. Qed.

Lemma deref_new_set_old h l : deref (new_set h).2 l = deref h l.
Proof.
  unfold new_set. simpl. unfold deref.
  destruct (decide (fresh (dom h) = l)) as [<-|Hne].
  - rewrite lookup_insert_eq. simpl.
    rewrite (not_elem_of_dom_1 h (fresh (dom h)) (is_fresh _)). reflexivity.
  - rewrite lookup_insert_ne by done. reflexivity.
Qed.

Lemma heap_le_new_set h : heap_le h (new_set h).2.
Proof. intros l. rewrite deref_new_set_old. reflexivity. Qed.

Lemma heap_le_setdefault o h : heap_le h (setdefault o h).2.
Proof. destruct o; simpl; [reflexivity | apply heap_le_new_set]. Qed.

Lemma setdefault_Some l h : setdefault (Some l) h = (l, h).
Proof. reflexivity. Qed.

(** [vs] added to the set at [l], in order. *)
Definition add_all (l : loc) (vs : list pyval) (h : heap) : heap :=
  fold_left (fun h v => set_add l v h) vs h.

Lemma heap_le_add_all l vs h : heap_le h (add_all l vs h).
Proof.
  revert h. induction vs as [|v vs IH]; intros h; simpl; [reflexivity|].
  etransitivity; [apply (heap_le_set_add l v) | apply IH].
Qed.

Lemma deref_add_all l vs h : deref (add_all l vs h) l = list_to_set vs ∪ deref h l.
Proof.
  revert h. induction vs as [|v vs IH]; intros h; simpl.
  - set_solver.
  - rewrite IH, deref_set_add_eq. set_solver.
Qed.

Lemma deref_add_all_ne l l' vs h : l ≠ l' -> deref (add_all l vs h) l' = deref h l'.
Proof.
  intros Hne. revert h. induction vs as [|v vs IH]; intros h; simpl; [reflexivity|].
  rewrite IH, deref_set_add_ne by done. reflexivity.
Qed.

Lemma elem_of_add_all l v vs h : v ∈ vs -> v ∈ deref (add_all l vs h) l.
Proof. intros Hv. rewrite deref_add_all. set_solver. Qed.

End Heap.

(** ** What the extract node does to the heap *)

Section Extract.

Definition is_PStr (v : pyval) : Prop := exists s, v = PStr s.

Lemma shape_PStr n m : (n <= 1)%nat -> is_PStr (shape n m).
Proof.
  intros Hn. destruct n as [|[|n]]; [eexists; reflexivity..|lia].
Qed.

(** A pattern with at most one group gives strings. *)
Lemma findall_PStr p s : (ngroups (body p) <= 1)%nat -> Forall is_PStr (findall p s).
Proof.
  intros Hn. unfold findall. apply Forall_fmap, Forall_forall.
  intros m _. apply shape_PStr, Hn.
Qed.

Definition clean_link (s : string) : pyval := PStr (rstrip ").,;" (strip s)).
Definition clean_phone (s : string) : pyval := PStr (strip s).

Definition as_string (v : pyval) : option string :=
  match v with PStr s => Some s | PTuple _ => None end.

(** What each loop of [node_extract] adds. *)
Definition link_items (p : pattern) (text : string) : list pyval :=
  clean_link <$> omap as_string (findall p text).
Definition upi_items (text : string) : list pyval := findall RE_UPI text.
Definition phone_items (text : string) : list pyval :=
  clean_phone <$> omap as_string (findall RE_PHONE text).
Definition bank_items (text : string) : list pyval :=
  List.filter (fun m => (9 <=? py_len m)%nat) (findall RE_BANK_AC text).
Definition keyword_items (text : string) : list pyval :=
  PStr <$> List.filter (fun kw => contains kw (lower text)) SUSPICIOUS_KEYWORDS.

Lemma for_each_add_link l vs h :
  Forall is_PStr vs ->
  for_each vs (add_link l) h = Done tt (add_all l (clean_link <$> omap as_string vs) h).
Proof.
  intros H. revert h. induction H as [|v vs [s ->] _ IH]; intros h; simpl; [reflexivity|].
  apply IH.
Qed.

Lemma for_each_add_phone l vs h :
  Forall is_PStr vs ->
  for_each vs (add_phone l) h = Done tt (add_all l (clean_phone <$> omap as_string vs) h).
Proof.
  intros H. revert h. induction H as [|v vs [s ->] _ IH]; intros h; simpl; [reflexivity|].
  apply IH.
Qed.

Lemma for_each_add_upi l vs h : for_each vs (add_upi l) h = Done tt (add_all l vs h).
Proof. revert h. induction vs as [|v vs IH]; intros h; simpl; [reflexivity|apply IH]. Qed.

Lemma for_each_add_bank l vs h :
  for_each vs (add_bank l) h
  = Done tt (add_all l (List.filter (fun m => (9 <=? py_len m)%nat) vs) h).
Proof.
  revert h. induction vs as [|v vs IH]; intros h; [reflexivity|].
  cbn [for_each List.filter]. unfold add_bank at 1.
  destruct (9 <=? py_len v)%nat; rewrite IH; reflexivity.
Qed.

Lemma for_each_add_keyword l low vs h :
  for_each vs (add_keyword l low) h
  = Done tt (add_all l (PStr <$> List.filter (fun kw => contains kw low) vs) h).
Proof.
  revert h. induction vs as [|v vs IH]; intros h; simpl; [reflexivity|].
  rewrite IH. destruct (contains v low); reflexivity.
Qed.

(** The heap after the six loops, given the five references. *)
Definition extract_heap (text : string) (bank upi links phones kws : loc) (h : heap) : heap :=
  add_all kws (keyword_items text)
    (add_all bank (bank_items text)
       (add_all phones (phone_items text)
          (add_all upi (upi_items text)
             (add_all links (link_items RE_SHORT text)
                (add_all links (link_items RE_URL text) h))))).

Lemma extract_loops text bank upi links phones kws h :
  and_then (for_each (findall RE_URL text) (add_link links) h) (fun h =>
  and_then (for_each (findall RE_SHORT text) (add_link links) h) (fun h =>
  and_then (for_each (findall RE_UPI text) (add_upi upi) h) (fun h =>
  and_then (for_each (findall RE_PHONE text) (add_phone phones) h) (fun h =>
  and_then (for_each (findall RE_BANK_AC text) (add_bank bank) h) (fun h =>
  and_then (for_each SUSPICIOUS_KEYWORDS (add_keyword kws (lower text)) h) (fun h =>
  Done (A := unit) tt h))))))
  = Done tt (extract_heap text bank upi links phones kws h).
Proof.
  rewrite for_each_add_link by (apply findall_PStr; vm_compute; lia). cbn [and_then].
  rewrite for_each_add_link by (apply findall_PStr; vm_compute; lia). cbn [and_then].
  rewrite for_each_add_upi. cbn [and_then].
  rewrite for_each_add_phone by (apply findall_PStr; vm_compute; lia). cbn [and_then].
  rewrite for_each_add_bank. cbn [and_then].
  rewrite for_each_add_keyword. cbn [and_then].
  unfold extract_heap, link_items, upi_items, phone_items, bank_items, keyword_items.
  reflexivity.
Qed.

Lemma heap_le_extract_heap text bank upi links phones kws h :
  heap_le h (extract_heap text bank upi links phones kws h).
Proof.
  unfold extract_heap.
  repeat (etransitivity; [|apply heap_le_add_all]). reflexivity.
Qed.

End Extract.

(** ** The pipeline on a state seeded by the handler *)

Import Main.

Section Pipeline.

Lemma and_then_loops {A} text bank upi links phones kws h (k : heap -> outcome A) :
  and_then (for_each (findall RE_URL text) (add_link links) h) (fun h =>
  and_then (for_each (findall RE_SHORT text) (add_link links) h) (fun h =>
  and_then (for_each (findall RE_UPI text) (add_upi upi) h) (fun h =>
  and_then (for_each (findall RE_PHONE text) (add_phone phones) h) (fun h =>
  and_then (for_each (findall RE_BANK_AC text) (add_bank bank) h) (fun h =>
  and_then (for_each SUSPICIOUS_KEYWORDS (add_keyword kws (lower text)) h) k)))))
  = k (extract_heap text bank upi links phones kws h).
Proof.
  rewrite for_each_add_link by (apply findall_PStr; vm_compute; lia). cbn [and_then].
  rewrite for_each_add_link by (apply findall_PStr; vm_compute; lia). cbn [and_then].
  rewrite for_each_add_upi. cbn [and_then].
  rewrite for_each_add_phone by (apply findall_PStr; vm_compute; lia). cbn [and_then].
  rewrite for_each_add_bank. cbn [and_then].
  rewrite for_each_add_keyword. cbn [and_then].
  unfold extract_heap, link_items, upi_items, phone_items, bank_items, keyword_items.
  reflexivity.
Qed.

(** The five references of a state after [setdefault], and the heap
    with the sets created for the missing ones. *)
Definition defaulted (st : AgentState) (h : heap) : (loc * loc * loc * loc * loc) * heap :=
  let '(bank, h) := setdefault (AgentGraph.bankAccounts st) h in
  let '(upi, h) := setdefault (AgentGraph.upiIds st) h in
  let '(links, h) := setdefault (AgentGraph.phishingLinks st) h in
  let '(phones, h) := setdefault (AgentGraph.phoneNumbers st) h in
  let '(kws, h) := setdefault (AgentGraph.suspiciousKeywords st) h in
  ((bank, upi, links, phones, kws), h).

Lemma heap_le_defaulted st h : heap_le h (defaulted st h).2.
Proof.
  unfold defaulted.
  destruct (setdefault (AgentGraph.bankAccounts st) h) as [bank h1] eqn:E1.
  destruct (setdefault (AgentGraph.upiIds st) h1) as [upi h2] eqn:E2.
  destruct (setdefault (AgentGraph.phishingLinks st) h2) as [links h3] eqn:E3.
  destruct (setdefault (AgentGraph.phoneNumbers st) h3) as [phones h4] eqn:E4.
  destruct (setdefault (AgentGraph.suspiciousKeywords st) h4) as [kws h5] eqn:E5.
  simpl.
  pose proof (heap_le_setdefault (AgentGraph.bankAccounts st) h) as H1.
  pose proof (heap_le_setdefault (AgentGraph.upiIds st) h1) as H2.
  pose proof (heap_le_setdefault (AgentGraph.phishingLinks st) h2) as H3.
  pose proof (heap_le_setdefault (AgentGraph.phoneNumbers st) h3) as H4.
  pose proof (heap_le_setdefault (AgentGraph.suspiciousKeywords st) h4) as H5.
  rewrite E1 in H1. rewrite E2 in H2. rewrite E3 in H3. rewrite E4 in H4. rewrite E5 in H5.
  simpl in *.
  etransitivity; [exact H1|]. etransitivity; [exact H2|].
  etransitivity; [exact H3|]. etransitivity; [exact H4|]. exact H5.
Qed.

(** Extraction is total: it never raises. *)
Lemma node_extract_total st h :
  node_extract st h =
  let '((bank, upi, links, phones, kws), h0) := defaulted st h in
  Done (with_sets bank upi links phones kws st)
       (extract_heap (incoming_text st) bank upi links phones kws h0).
Proof.
  unfold node_extract, defaulted.
  destruct (setdefault (AgentGraph.bankAccounts st) h) as [bank h1].
  destruct (setdefault (AgentGraph.upiIds st) h1) as [upi h2].
  destruct (setdefault (AgentGraph.phishingLinks st) h2) as [links h3].
  destruct (setdefault (AgentGraph.phoneNumbers st) h3) as [phones h4].
  destruct (setdefault (AgentGraph.suspiciousKeywords st) h4) as [kws h5].
  apply (and_then_loops (A := AgentState)).
Qed.

Lemma node_extract_seeded st h bank upi lnk phones kws :
  AgentGraph.bankAccounts st = Some bank -> AgentGraph.upiIds st = Some upi ->
  AgentGraph.phishingLinks st = Some lnk -> AgentGraph.phoneNumbers st = Some phones ->
  AgentGraph.suspiciousKeywords st = Some kws ->
  node_extract st h =
  Done (with_sets bank upi lnk phones kws st)
       (extract_heap (incoming_text st) bank upi lnk phones kws h).
Proof.
  intros H1 H2 H3 H4 H5. rewrite node_extract_total. unfold defaulted.
  rewrite H1, H2, H3, H4, H5. reflexivity.
Qed.

Lemma node_extract_grows st h st' h' :
  node_extract st h = Done st' h' -> heap_le h h'.
Proof.
  rewrite node_extract_total.
  pose proof (heap_le_defaulted st h) as H0.
  destruct (defaulted st h) as [[[[[bank upi] links] phones] kws] h0].
  intros [= <- <-]. etransitivity; [exact H0 | apply heap_le_extract_heap].
Qed.

Variable T : Z.
Variable hf : chat_fn.
Variable event : IncomingEvent.
Variable sess : session.
Variable h : heap.

(** The heap the pipeline leaves. *)
Definition extracted : heap :=
  extract_heap (text (message event))
    (bankAccounts sess) (upiIds sess) (phishingLinks sess) (phoneNumbers sess)
    (suspiciousKeywords sess) h.

Definition detected : AgentState :=
  with_sets (bankAccounts sess) (upiIds sess) (phishingLinks sess) (phoneNumbers sess)
    (suspiciousKeywords sess) (node_detect (state_in event sess)).

Definition decided : AgentState := node_decide T detected extracted.

(** The state the pipeline leaves. *)
Definition final_state : AgentState := node_reply_llm hf decided extracted.

Lemma graph_seeded :
  graph_ainvoke T hf (state_in event sess) h = Done final_state extracted.
Proof.
  unfold graph_ainvoke.
  rewrite (node_extract_seeded (node_detect (state_in event sess)) h
             (bankAccounts sess) (upiIds sess) (phishingLinks sess) (phoneNumbers sess)
             (suspiciousKeywords sess)) by reflexivity.
  unfold final_state, decided, detected, extracted.
  change (incoming_text (node_detect (state_in event sess))) with (text (message event)).
  reflexivity.
Qed.

Lemma node_reply_llm_frame (st : AgentState) (h1 : heap) :
  exists r, node_reply_llm hf st h1 = with_reply r st.
Proof.
  unfold node_reply_llm.
  destruct (negb _); [eauto|]. destruct (hf _ _); eauto.
Qed.

Lemma final_state_scamDetected :
  AgentGraph.scamDetected final_state
  = Some (PrimFloat.leb 0.35 (_score_scam (text (message event)))).
Proof.
  unfold final_state. destruct (node_reply_llm_frame decided extracted) as [r ->].
  reflexivity.
Qed.

Lemma final_state_confidence :
  AgentGraph.confidence final_state = Some (_score_scam (text (message event))).
Proof.
  unfold final_state. destruct (node_reply_llm_frame decided extracted) as [r ->].
  reflexivity.
Qed.

Lemma final_state_shouldFinalize :
  AgentGraph.shouldFinalize final_state
  = Some (PrimFloat.leb 0.35 (_score_scam (text (message event)))
          && _should_finalize T detected extracted).
Proof.
  unfold final_state. destruct (node_reply_llm_frame decided extracted) as [r ->].
  reflexivity.
Qed.

Lemma final_state_refs :
  AgentGraph.bankAccounts final_state = Some (bankAccounts sess)
  /\ AgentGraph.upiIds final_state = Some (upiIds sess)
  /\ AgentGraph.phishingLinks final_state = Some (phishingLinks sess)
  /\ AgentGraph.phoneNumbers final_state = Some (phoneNumbers sess)
  /\ AgentGraph.suspiciousKeywords final_state = Some (suspiciousKeywords sess).
Proof.
  unfold final_state. destruct (node_reply_llm_frame decided extracted) as [r ->].
  repeat split; reflexivity.
Qed.

(** Whatever the state and the heap, the pipeline completes and stores
    the score of the text and its comparison with the threshold. *)
Lemma graph_detects (st : AgentState) (h1 : heap) :
  exists st' h',
    graph_ainvoke T hf st h1 = Done st' h'
    /\ AgentGraph.confidence st' = Some (_score_scam (incoming_text st))
    /\ AgentGraph.scamDetected st'
       = Some (PrimFloat.leb 0.35 (_score_scam (incoming_text st))).
Proof.
  unfold graph_ainvoke. rewrite node_extract_total.
  destruct (defaulted (node_detect st) h1) as [[[[[bank upi] lnk] phones] kws] h0].
  eexists _, _. split; [reflexivity|].
  match goal with
  | |- context [node_reply_llm hf ?s ?hh] =>
      destruct (node_reply_llm_frame s hh) as [r ->]
  end.
  split; reflexivity.
Qed.

Lemma persist_final_state : persist final_state sess = sess.
Proof.
  unfold persist. destruct final_state_refs as (-> & -> & -> & -> & ->).
  destruct sess; reflexivity.
Qed.

Lemma heap_le_extracted : heap_le h extracted.
Proof. apply heap_le_extract_heap. Qed.

End Pipeline.

(** ** The handler, stage by stage *)

Section Handler.

(** The two sessions hold the same five set objects. *)
Definition same_refs (s s' : session) : Prop :=
  bankAccounts s = bankAccounts s' /\ upiIds s = upiIds s'
  /\ phishingLinks s = phishingLinks s' /\ phoneNumbers s = phoneNumbers s'
  /\ suspiciousKeywords s = suspiciousKeywords s'.

Lemma same_refs_refl s : same_refs s s.
Proof. repeat split. Qed.

Lemma same_refs_trans s1 s2 s3 : same_refs s1 s2 -> same_refs s2 s3 -> same_refs s1 s3.
Proof.
  intros (? & ? & ? & ? & ?) (? & ? & ? & ? & ?). repeat split; congruence.
Qed.

(** The latch of a session, [false] while the session does not exist. *)
Definition is_finalized (w : world) (sid : string) : bool :=
  match SESSIONS w !! sid with
  | Some s => finalized s
  | None => false
  end.

(** The number of reports posted for a session. *)
Definition reports (sid : string) (w : world) : nat :=
  length (List.filter (fun p => bool_decide (p_sessionId p = sid)) (outbox w)).

Lemma handle_message_unauthorized cfg e ev key w :
  key ≠ Some (API_KEY cfg) -> handle_message cfg e ev key w = (Http401, w).
Proof.
  intros Hk. unfold handle_message. rewrite bool_decide_eq_false_2 by exact Hk. reflexivity.
Qed.

Lemma handle_message_authorized cfg e ev w :
  handle_message cfg e ev (Some (API_KEY cfg)) w =
  let sid := sessionId ev in
  let sw := enter e sid w in
  let st := final_state (FINALIZE_MIN_ARTIFACTS cfg) (hf_chat e) ev sw.1 (store sw.2) in
  let w4 := put_session sid sw.1 (with_store (extracted ev sw.1 (store sw.2)) sw.2) in
  let sw5 := finalize_step e sid (default false (AgentGraph.scamDetected st))
               (default false (AgentGraph.shouldFinalize st)) sw.1 w4 in
  (respond st sw5.1 sw5.2, sw5.2).
Proof.
  unfold handle_message. rewrite bool_decide_eq_true_2 by reflexivity. cbn [negb].
  destruct (enter e (sessionId ev) w) as [sess w1]. cbn [fst snd].
  rewrite graph_seeded. unfold merge_back. rewrite persist_final_state.
  destruct (finalize_step _ _ _ _ _ _) as [sess' w5]. reflexivity.
Qed.

(** *** Entering *)

Lemma get_lock_frame sid w :
  SESSIONS (get_lock sid w) = SESSIONS w /\ store (get_lock sid w) = store w
  /\ outbox (get_lock sid w) = outbox w.
Proof. unfold get_lock. destruct (decide _); repeat split. Qed.

Lemma heap_le_new_set_eq h l h' : new_set h = (l, h') -> heap_le h h'.
Proof. intros E. pose proof (heap_le_new_set h) as H. rewrite E in H. exact H. Qed.

Lemma enter_existing e sid w s :
  SESSIONS w !! sid = Some s ->
  enter e sid w = (touch (now_ts e) s, put_session sid (touch (now_ts e) s) (get_lock sid w)).
Proof.
  intros Hs. unfold enter, get_session.
  destruct (get_lock_frame sid w) as (HS & _ & _). rewrite HS, Hs. reflexivity.
Qed.

Lemma enter_spec e sid w :
  let sw := enter e sid w in
  SESSIONS sw.2 = <[sid := sw.1]> (SESSIONS w)
  /\ outbox sw.2 = outbox w
  /\ heap_le (store w) (store sw.2)
  /\ finalized sw.1 = is_finalized w sid
  /\ (forall s, SESSIONS w !! sid = Some s -> same_refs s sw.1).
Proof.
  unfold enter, get_session, is_finalized.
  destruct (get_lock_frame sid w) as (HS & Hh & Ho). rewrite HS.
  destruct (SESSIONS w !! sid) as [s|] eqn:Hs.
  - cbn. rewrite HS, Hh, Ho.
    split; [reflexivity|]. split; [reflexivity|]. split; [reflexivity|].
    split; [reflexivity|]. intros s' [= <-]. repeat split.
  - destruct (new_set (store (get_lock sid w))) as [bank h1] eqn:E1.
    destruct (new_set h1) as [upi h2] eqn:E2.
    destruct (new_set h2) as [links h3] eqn:E3.
    destruct (new_set h3) as [phones h4] eqn:E4.
    destruct (new_set h4) as [kws h5] eqn:E5.
    unfold put_session. simpl. rewrite ?HS, ?Ho.
    split; [|split; [reflexivity|split; [|split; [reflexivity|discriminate]]]].
    + rewrite insert_insert_eq. reflexivity.
    + rewrite <- Hh.
      etransitivity; [exact (heap_le_new_set_eq _ _ _ E1)|].
      etransitivity; [exact (heap_le_new_set_eq _ _ _ E2)|].
      etransitivity; [exact (heap_le_new_set_eq _ _ _ E3)|].
      etransitivity; [exact (heap_le_new_set_eq _ _ _ E4)|].
      exact (heap_le_new_set_eq _ _ _ E5).
Qed.

(** *** The finalize block *)

Lemma send_guvi_callback_spec e sid s h sent :
  let cb := send_guvi_callback e sid s h sent in
  same_refs s (cb_session cb) /\ finalized (cb_session cb) = finalized s
  /\ (cb_outbox cb = sent
      \/ exists p, cb_outbox cb = sent ++ [p] /\ p_sessionId p = sid).
Proof.
  unfold send_guvi_callback.
  destruct (sorted_intelligence s h) as [intel|]; cbn.
  - destruct (guvi_post e _) as [code|]; cbn.
    + destruct (400 <=? code)%Z; cbn; (repeat split; [right; eexists; split; reflexivity]).
    + repeat split. right. eexists. split; reflexivity.
  - repeat split. left. reflexivity.
Qed.

Lemma finalize_step_spec e sid scam should s w :
  let sw := finalize_step e sid scam should s w in
  same_refs s sw.1
  /\ finalized sw.1 = finalized s || (scam && should)
  /\ store sw.2 = store w
  /\ (SESSIONS sw.2 = SESSIONS w /\ sw.1 = s \/ SESSIONS sw.2 = <[sid := sw.1]> (SESSIONS w))
  /\ (outbox sw.2 = outbox w
      \/ (scam && negb (finalized s) && should = true
          /\ exists p, outbox sw.2 = outbox w ++ [p] /\ p_sessionId p = sid)).
Proof.
  unfold finalize_step.
  destruct (scam && negb (finalized s) && should) eqn:Hc.
  - apply andb_prop in Hc as [Hc Hshould]. apply andb_prop in Hc as [Hscam Hfin].
    apply negb_true_iff in Hfin. subst scam should.
    pose proof (send_guvi_callback_spec e sid (mark_finalized s) (store w) (outbox w))
      as (Hr & Hf & Ho).
    cbn zeta in Hr, Hf, Ho.
    set (cb := send_guvi_callback e sid (mark_finalized s) (store w) (outbox w)) in *.
    assert (Hrefs : same_refs s (cb_session cb)).
    { apply (same_refs_trans _ (mark_finalized s)); [repeat split | exact Hr]. }
    rewrite Hfin. cbn [fst snd orb andb].
    destruct (cb_raised cb); cbn [fst snd].
    + split; [exact Hrefs|]. split; [cbn; rewrite Hf; reflexivity|].
      split; [reflexivity|]. split; [right; reflexivity|].
      destruct Ho as [Ho|(p & Ho & Hp)]; [left; exact Ho | right; eauto].
    + split; [exact Hrefs|]. split; [rewrite Hf; reflexivity|].
      split; [reflexivity|]. split; [right; reflexivity|].
      destruct Ho as [Ho|(p & Ho & Hp)]; [left; exact Ho | right; eauto].
  - cbn [fst snd]. split; [apply same_refs_refl|].
    split.
    { destruct (finalized s), scam, should; try reflexivity; discriminate. }
    split; [reflexivity|]. split; [left; split; reflexivity|]. left. reflexivity.
Qed.

End Handler.

(** ** One request, seen from the outside *)

Section Step.

Variable cfg : config.

(** The world after a request. *)
Definition step (q : request) (w : world) : world :=
  (handle_message cfg (q_env q) (q_event q) (q_key q) w).2.

Lemma serve_nil w : serve cfg [] w = w.
Proof. reflexivity. Qed.

Lemma serve_cons q qs w : serve cfg (q :: qs) w = serve cfg qs (step q w).
Proof. reflexivity. Qed.

Lemma serve_app qs1 qs2 w : serve cfg (qs1 ++ qs2) w = serve cfg qs2 (serve cfg qs1 w).
Proof. unfold serve. apply fold_left_app. Qed.

Lemma step_spec q w :
  heap_le (store w) (store (step q w))
  /\ (forall sid s, SESSIONS w !! sid = Some s ->
        exists s', SESSIONS (step q w) !! sid = Some s' /\ same_refs s s'
                   /\ (finalized s = true -> finalized s' = true))
  /\ (outbox (step q w) = outbox w
      \/ (is_finalized w (sessionId (q_event q)) = false
          /\ is_finalized (step q w) (sessionId (q_event q)) = true
          /\ exists p, outbox (step q w) = outbox w ++ [p]
                       /\ p_sessionId p = sessionId (q_event q))).
Proof.
  unfold step. destruct q as [e ev key]. cbn [q_env q_event q_key].
  destruct (decide (key = Some (API_KEY cfg))) as [->|Hk].
  2:{ rewrite handle_message_unauthorized by exact Hk. cbn [snd].
      split; [reflexivity|]. split; [|left; reflexivity].
      intros sid s Hs. exists s. split; [exact Hs|]. split; [apply same_refs_refl|auto]. }
  rewrite handle_message_authorized. cbn zeta. cbn [snd].
  set (sid := sessionId ev).
  pose proof (enter_spec e sid w) as (ES & EO & EH & EF & ER). cbn zeta in ES, EO, EH, EF, ER.
  set (sw := enter e sid w) in *.
  set (st := final_state (FINALIZE_MIN_ARTIFACTS cfg) (hf_chat e) ev sw.1 (store sw.2)).
  set (w4 := put_session sid sw.1 (with_store (extracted ev sw.1 (store sw.2)) sw.2)).
  pose proof (finalize_step_spec e sid (default false (AgentGraph.scamDetected st))
                (default false (AgentGraph.shouldFinalize st)) sw.1 w4)
    as (FR & FF & FH & FS & FO).
  cbn zeta in FR, FF, FH, FS, FO.
  set (sw5 := finalize_step e sid _ _ sw.1 w4) in *.
  assert (HS4 : SESSIONS w4 = <[sid := sw.1]> (SESSIONS w)).
  { unfold w4, put_session, with_store. cbn. rewrite ES, insert_insert_eq. reflexivity. }
  assert (HS5 : SESSIONS sw5.2 = <[sid := sw5.1]> (SESSIONS w)).
  { destruct FS as [[-> ->]| ->]; rewrite HS4; [reflexivity|].
    rewrite insert_insert_eq. reflexivity. }
  assert (HF5 : is_finalized sw5.2 sid = finalized sw5.1).
  { unfold is_finalized. rewrite HS5, lookup_insert_eq. reflexivity. }
  split; [|split].
  - rewrite FH. unfold w4, put_session, with_store. cbn [store].
    etransitivity; [exact EH | apply heap_le_extracted].
  - intros sid0 s Hs. rewrite HS5.
    destruct (decide (sid = sid0)) as [<-|Hne].
    + rewrite lookup_insert_eq. exists sw5.1. split; [reflexivity|]. split.
      * apply (same_refs_trans _ sw.1); [apply ER; exact Hs | exact FR].
      * intros Hfin. rewrite FF, EF. unfold is_finalized. rewrite Hs, Hfin. reflexivity.
    + rewrite lookup_insert_ne by exact Hne. exists s.
      split; [exact Hs|]. split; [apply same_refs_refl|auto].
  - assert (HO4 : outbox w4 = outbox w) by (unfold w4; cbn; exact EO).
    destruct FO as [FO|(Hc & p & FO & Hp)].
    + left. rewrite FO. exact HO4.
    + right. apply andb_prop in Hc as [Hc Hshould]. apply andb_prop in Hc as [Hscam Hfin].
      apply negb_true_iff in Hfin.
      split; [rewrite <- EF; exact Hfin|]. split.
      * rewrite HF5, FF, Hscam, Hshould. apply orb_true_r.
      * exists p. rewrite FO, HO4. split; [reflexivity | exact Hp].
Qed.

Lemma is_finalized_step q w sid :
  is_finalized w sid = true -> is_finalized (step q w) sid = true.
Proof.
  unfold is_finalized at 1. destruct (SESSIONS w !! sid) as [s|] eqn:Hs; [|discriminate].
  intros Hf. destruct (step_spec q w) as (_ & H & _).
  destruct (H sid s Hs) as (s' & Hs' & _ & Hf').
  unfold is_finalized. rewrite Hs'. auto.
Qed.

Lemma reports_app sid w p ps :
  outbox w = ps ++ [p] ->
  reports sid w
  = (length (List.filter (fun p => bool_decide (p_sessionId p = sid)) ps)
     + if bool_decide (p_sessionId p = sid) then 1 else 0)%nat.
Proof.
  intros H. unfold reports. rewrite H, List.filter_app, length_app. cbn.
  destruct (bool_decide _); reflexivity.
Qed.

(** Once the latch is set, a request posts nothing for the session. *)
Lemma reports_step_finalized q w sid :
  is_finalized w sid = true -> reports sid (step q w) = reports sid w.
Proof.
  intros Hf. destruct (step_spec q w) as (_ & _ & [HO|(Hnf & _ & p & HO & Hp)]).
  - unfold reports. rewrite HO. reflexivity.
  - rewrite (reports_app sid _ p (outbox w) HO).
    destruct (bool_decide_reflect (p_sessionId p = sid)) as [Heq|Hne].
    + rewrite <- Heq, Hp, Hnf in Hf. discriminate.
    + unfold reports. lia.
Qed.

(** At most one report for a session, and none while its latch is open. *)
Definition reported_once (w : world) : Prop :=
  forall sid, (reports sid w <= if is_finalized w sid then 1 else 0)%nat.

Lemma reported_once_initial : reported_once initial_world.
Proof. intros sid. cbn. lia. Qed.

Lemma reported_once_step q w : reported_once w -> reported_once (step q w).
Proof.
  intros HI sid. specialize (HI sid).
  destruct (is_finalized w sid) eqn:Hf.
  - rewrite (is_finalized_step q w sid Hf), (reports_step_finalized q w sid Hf). exact HI.
  - destruct (step_spec q w) as (_ & _ & [HO|(Hnf & Hf' & p & HO & Hp)]).
    + unfold reports in *. rewrite HO. destruct (is_finalized (step q w) sid); lia.
    + rewrite (reports_app sid _ p (outbox w) HO). unfold reports in HI.
      destruct (bool_decide_reflect (p_sessionId p = sid)) as [Heq|Hne].
      * subst sid. rewrite Hp in *. rewrite Hf'. lia.
      * destruct (is_finalized (step q w) sid); lia.
Qed.

Lemma reported_once_serve qs w : reported_once w -> reported_once (serve cfg qs w).
Proof.
  revert w. induction qs as [|q qs IH]; intros w HI; [exact HI|].
  rewrite serve_cons. apply IH, reported_once_step, HI.
Qed.

Lemma is_finalized_serve qs w sid :
  is_finalized w sid = true -> is_finalized (serve cfg qs w) sid = true.
Proof.
  revert w. induction qs as [|q qs IH]; intros w Hf; [exact Hf|].
  rewrite serve_cons. apply IH, is_finalized_step, Hf.
Qed.

Lemma reports_serve_finalized qs w sid :
  is_finalized w sid = true -> reports sid (serve cfg qs w) = reports sid w.
Proof.
  revert w. induction qs as [|q qs IH]; intros w Hf; [reflexivity|].
  rewrite serve_cons, IH by (apply is_finalized_step, Hf).
  apply reports_step_finalized, Hf.
Qed.

End Step.

(** ** Concrete requests *)

Module Scenarios.

Definition text1 : string :=
  "Your account will be blocked today! Verify via bit.ly/xyz123 or pay to upi@ybl, call 9876543210".

Definition event_of (sid txt : string) : IncomingEvent :=
  {| sessionId := sid;
     message := {| sender := "scammer"; text := txt; timestamp := 0 |};
     conversationHistory := [];
     metadata := None |}.

(** The generation service answers, the collector accepts. *)
Definition env_ok : env :=
  {| now_ts := 0;
     hf_chat := fun _ _ => HfText "Which bank is this about?";
     guvi_post := fun _ => PostStatus 200 |}.

(** The generation service times out, the collector answers 500. *)
Definition env_down : env :=
  {| now_ts := 0;
     hf_chat := fun _ _ => HfRaise;
     guvi_post := fun _ => PostStatus 500 |}.

(** The generation service answers with an empty text. *)
Definition env_empty : env :=
  {| now_ts := 0;
     hf_chat := fun _ _ => HfText "";
     guvi_post := fun _ => PostStatus 200 |}.

Definition request_of (e : env) (sid txt : string) : request :=
  {| q_env := e; q_event := event_of sid txt; q_key := Some "CHANGE_ME" |}.

End Scenarios.

(** ** The latch and the single report *)

(** C3. A session is created with its latch open. Along every sequence of
    requests served from the start of the process, for every session: at
    most one report is posted; a report posted, whatever became of its
    delivery, leaves the latch set; and once the latch is set it stays
    set and no later request posts a report again. *)
Theorem finalized_latch_single_report (cfg : config) (qs1 qs2 : list request) (sid : string) :
  let w1 := serve cfg qs1 initial_world in
  let w2 := serve cfg qs2 w1 in
  (forall now w, SESSIONS w !! sid = None -> finalized (get_session now sid w).1 = false)
  /\ (reports sid w2 <= 1)%nat
  /\ (reports sid w2 = 1%nat -> is_finalized w2 sid = true)
  /\ (is_finalized w1 sid = true ->
      is_finalized w2 sid = true /\ reports sid w2 = reports sid w1).
Proof.
  cbn zeta. split; [|split; [|split]].
  - intros now w Hs. unfold get_session. rewrite Hs.
    destruct (new_set (store w)) as [bank h1]. destruct (new_set h1) as [upi h2].
    destruct (new_set h2) as [links h3]. destruct (new_set h3) as [phones h4].
    destruct (new_set h4) as [kws h5]. reflexivity.
  - pose proof (reported_once_serve cfg qs2 _
                  (reported_once_serve cfg qs1 _ reported_once_initial) sid) as H.
    destruct (is_finalized _ sid) in H; lia.
  - pose proof (reported_once_serve cfg qs2 _
                  (reported_once_serve cfg qs1 _ reported_once_initial) sid) as H.
    intros H1. destruct (is_finalized _ sid) in H |- *; [reflexivity|lia].
  - intros Hf. split.
    + apply is_finalized_serve, Hf.
    + apply reports_serve_finalized, Hf.
Qed.

(** The first request finalizes and its report is answered 500; the
    second, with the same text, finds the latch set and posts nothing. *)
Lemma finalized_latch_single_report_witness :
  is_finalized
    (serve default_config [Scenarios.request_of Scenarios.env_down "s1" Scenarios.text1]
       initial_world) "s1" = true
  /\ is_finalized
       (serve default_config [Scenarios.request_of Scenarios.env_ok "s1" Scenarios.text1]
          (serve default_config [Scenarios.request_of Scenarios.env_down "s1" Scenarios.text1]
             initial_world)) "s1" = true
  /\ reports "s1"
       (serve default_config [Scenarios.request_of Scenarios.env_ok "s1" Scenarios.text1]
          (serve default_config [Scenarios.request_of Scenarios.env_down "s1" Scenarios.text1]
             initial_world))
     = reports "s1"
         (serve default_config [Scenarios.request_of Scenarios.env_down "s1" Scenarios.text1]
            initial_world).
Proof.
  split; [vm_compute; reflexivity|].
  apply (finalized_latch_single_report default_config
           [Scenarios.request_of Scenarios.env_down "s1" Scenarios.text1]
           [Scenarios.request_of Scenarios.env_ok "s1" Scenarios.text1] "s1").
  vm_compute. reflexivity.
Defined.

(** ** Evidence only grows *)

(** The five sets of a session, read through the heap. *)
Record evidence := Evidence {
  links : pyset;
  paymentHandles : pyset;
  phoneNumbers_ : pyset;
  accountNumbers : pyset;
  keywords : pyset
}.

Definition evidence_of (w : world) (s : session) : evidence :=
  {| links := deref (store w) (phishingLinks s);
     paymentHandles := deref (store w) (upiIds s);
     phoneNumbers_ := deref (store w) (phoneNumbers s);
     accountNumbers := deref (store w) (bankAccounts s);
     keywords := deref (store w) (suspiciousKeywords s) |}.

Definition evidence_le (a b : evidence) : Prop :=
  links a ⊆ links b /\ paymentHandles a ⊆ paymentHandles b
  /\ phoneNumbers_ a ⊆ phoneNumbers_ b /\ accountNumbers a ⊆ accountNumbers b
  /\ keywords a ⊆ keywords b.

Lemma evidence_le_heap (h h' : heap) (s s' : session) (w w' : world) :
  store w = h -> store w' = h' -> heap_le h h' -> same_refs s s' ->
  evidence_le (evidence_of w s) (evidence_of w' s').
Proof.
  intros <- <- Hle (H1 & H2 & H3 & H4 & H5). unfold evidence_le, evidence_of. cbn.
  rewrite <- H1, <- H2, <- H3, <- H4, <- H5. repeat split; apply Hle.
Qed.

Lemma evidence_grows_step cfg q w sid s :
  SESSIONS w !! sid = Some s ->
  exists s', SESSIONS (step cfg q w) !! sid = Some s' /\ same_refs s s'
             /\ evidence_le (evidence_of w s) (evidence_of (step cfg q w) s').
Proof.
  intros Hs. destruct (step_spec cfg q w) as (Hh & H & _).
  destruct (H sid s Hs) as (s' & Hs' & Hr & _).
  exists s'. split; [exact Hs'|]. split; [exact Hr|].
  eapply evidence_le_heap; [reflexivity|reflexivity|exact Hh|exact Hr].
Qed.

(** C4. Whatever requests are served, for whatever sessions, every member
    of each of the five sets of a session is still a member afterwards. *)
Theorem evidence_only_grows (cfg : config) (qs : list request) (w : world)
    (sid : string) (s : session) :
  SESSIONS w !! sid = Some s ->
  exists s', SESSIONS (serve cfg qs w) !! sid = Some s'
             /\ evidence_le (evidence_of w s) (evidence_of (serve cfg qs w) s').
Proof.
  revert w s. induction qs as [|q qs IH]; intros w s Hs.
  - exists s. split; [exact Hs|]. repeat split; reflexivity.
  - rewrite serve_cons.
    destruct (evidence_grows_step cfg q w sid s Hs) as (s1 & Hs1 & _ & Hle1).
    destruct (IH _ s1 Hs1) as (s2 & Hs2 & Hle2).
    exists s2. split; [exact Hs2|].
    destruct Hle1 as (? & ? & ? & ? & ?), Hle2 as (? & ? & ? & ? & ?).
    repeat split; etransitivity; eassumption.
Qed.

(** After the first request of scenario 1 a second one names another
    phone number; what the session held is still there. *)
Lemma evidence_only_grows_witness :
  let w1 := serve default_config
              [Scenarios.request_of Scenarios.env_ok "s1" Scenarios.text1] initial_world in
  let s1 := Session 0 0 1 true "Detected scam intent; extracted artifacts from conversation."
              1%positive 2%positive 3%positive 4%positive 5%positive in
  let qs := [Scenarios.request_of Scenarios.env_ok "s1" "call me on 9123456780"] in
  SESSIONS w1 !! "s1" = Some s1
  /\ exists s', SESSIONS (serve default_config qs w1) !! "s1" = Some s'
                /\ evidence_le (evidence_of w1 s1) (evidence_of (serve default_config qs w1) s').
Proof.
  cbv zeta.
  assert (H : SESSIONS (serve default_config
                [Scenarios.request_of Scenarios.env_ok "s1" Scenarios.text1] initial_world)
              !! "s1"
              = Some (Session 0 0 1 true
                        "Detected scam intent; extracted artifacts from conversation."
                        1%positive 2%positive 3%positive 4%positive 5%positive)).
  { vm_compute. reflexivity. }
  split; [exact H|].
  exact (evidence_only_grows default_config _ _ "s1" _ H).
Defined.

(** ** The finalize policy *)

(** The number of the four artifact categories with at least one member;
    the keywords are not among them. *)
Definition category_count (ev : evidence) : Z :=
  (if bool_decide (links ev ≠ ∅) then 1 else 0)
  + (if bool_decide (paymentHandles ev ≠ ∅) then 1 else 0)
  + (if bool_decide (phoneNumbers_ ev ≠ ∅) then 1 else 0)
  + (if bool_decide (accountNumbers ev ≠ ∅) then 1 else 0).

Lemma has_members_nonempty (l : loc) (h : heap) :
  has_members (Some l) h = bool_decide (deref h l ≠ ∅).
Proof.
  unfold has_members.
  destruct (bool_decide_reflect (deref h l ≠ ∅)) as [Hne|He].
  - apply Nat.ltb_lt.
    assert (size (deref h l) ≠ 0%nat); [|lia].
    apply size_non_empty_iff. intros He. apply Hne. apply leibniz_equiv, He.
  - apply dec_stable in He. rewrite He, size_empty. reflexivity.
Qed.

Lemma should_finalize_count (T : Z) (st : AgentState) (h : heap) (s : session) (w : world) :
  AgentGraph.phishingLinks st = Some (phishingLinks s) ->
  AgentGraph.upiIds st = Some (upiIds s) ->
  AgentGraph.phoneNumbers st = Some (phoneNumbers s) ->
  AgentGraph.bankAccounts st = Some (bankAccounts s) ->
  store w = h ->
  _should_finalize T st h = (T <=? category_count (evidence_of w s))%Z.
Proof.
  intros H1 H2 H3 H4 <-. unfold _should_finalize, category_count, evidence_of. cbn.
  rewrite H1, H2, H3, H4, !has_members_nonempty.
  repeat destruct (bool_decide _); reflexivity.
Qed.

(** C2. For every message, session and heap: the pipeline completes, and
    its [shouldFinalize] is true exactly when the message is detected as
    a scam and at least [FINALIZE_MIN_ARTIFACTS] (3 when not configured)
    of links, payment handles, phone numbers and account numbers are
    non-empty in the session's sets once the message is merged. *)
Theorem should_finalize_policy (cfg : config) (e : env) (event : IncomingEvent)
    (sess : session) (w : world) :
  FINALIZE_MIN_ARTIFACTS default_config = 3%Z
  /\ exists state_out h',
       graph_ainvoke (FINALIZE_MIN_ARTIFACTS cfg) (hf_chat e) (state_in event sess) (store w)
       = Done state_out h'
       /\ default false (AgentGraph.scamDetected state_out)
          = PrimFloat.leb 0.35 (_score_scam (text (message event)))
       /\ default false (AgentGraph.shouldFinalize state_out)
          = default false (AgentGraph.scamDetected state_out)
            && (FINALIZE_MIN_ARTIFACTS cfg
                <=? category_count
                      (evidence_of (merge_back (sessionId event) state_out h' sess w).2
                                   (merge_back (sessionId event) state_out h' sess w).1))%Z.
Proof.
  split; [reflexivity|].
  exists (final_state (FINALIZE_MIN_ARTIFACTS cfg) (hf_chat e) event sess (store w)).
  exists (extracted event sess (store w)).
  split; [apply graph_seeded|].
  rewrite final_state_scamDetected, final_state_shouldFinalize.
  unfold default. cbn [from_option id].
  split; [reflexivity|]. f_equal.
  unfold merge_back. cbn [fst snd]. rewrite persist_final_state.
  apply should_finalize_count; reflexivity.
Qed.

(** ** Sharing between the session and the per-message state *)

(** C5 as stated fails: seeded with the sets of a session, the pipeline
    leaves the heap with the phone set of the session already changed,
    before anything is merged back. *)
Lemma seeded_sets_shared_counterexample :
  ~ (forall (T : Z) (hf : chat_fn) (event : IncomingEvent) (sess : session) (h : heap)
            (state_out : AgentState) (h' : heap),
        graph_ainvoke T hf (state_in event sess) h = Done state_out h' ->
        deref h' (phoneNumbers sess) = deref h (phoneNumbers sess)).
Proof.
  intros H.
  specialize (H 3%Z (fun _ _ => HfRaise) (Scenarios.event_of "s1" "call 9876543210")
                (Session 0 0 0 false "" 1%positive 2%positive 3%positive 4%positive 5%positive)
                ∅ _ _ (graph_seeded _ _ _ _ _)).
  assert (Hin : PStr "9876543210"
                ∈ deref (extracted (Scenarios.event_of "s1" "call 9876543210")
                           (Session 0 0 0 false "" 1%positive 2%positive 3%positive
                              4%positive 5%positive) ∅) 4%positive).
  { apply (bool_decide_unpack _). vm_compute. exact I. }
  change (phoneNumbers (Session 0 0 0 false "" 1%positive 2%positive 3%positive
                          4%positive 5%positive)) with 4%positive in H.
  rewrite H in Hin. unfold deref in Hin. rewrite lookup_empty in Hin.
  exact (not_elem_of_empty _ Hin).
Qed.

(** C5, amended. The state is seeded with the session's own set objects;
    the pipeline adds what it extracts to these objects in place; the
    final state still holds them, so that the merge-back assigns to each
    key of the session the object it holds already; and no set of the
    session is smaller after the message than before. *)
Theorem seeded_sets_shared (T : Z) (hf : chat_fn) (event : IncomingEvent)
    (sess : session) (w : world) :
  (AgentGraph.bankAccounts (state_in event sess) = Some (bankAccounts sess)
   /\ AgentGraph.upiIds (state_in event sess) = Some (upiIds sess)
   /\ AgentGraph.phishingLinks (state_in event sess) = Some (phishingLinks sess)
   /\ AgentGraph.phoneNumbers (state_in event sess) = Some (phoneNumbers sess)
   /\ AgentGraph.suspiciousKeywords (state_in event sess) = Some (suspiciousKeywords sess))
  /\ exists state_out,
       graph_ainvoke T hf (state_in event sess) (store w)
       = Done state_out
           (extract_heap (text (message event))
              (bankAccounts sess) (upiIds sess) (phishingLinks sess) (phoneNumbers sess)
              (suspiciousKeywords sess) (store w))
       /\ persist state_out sess = sess
       /\ forall h', graph_ainvoke T hf (state_in event sess) (store w) = Done state_out h' ->
            evidence_le (evidence_of w sess)
              (evidence_of (merge_back (sessionId event) state_out h' sess w).2
                           (merge_back (sessionId event) state_out h' sess w).1).
Proof.
  split; [repeat split|].
  exists (final_state T hf event sess (store w)).
  split; [apply graph_seeded|]. split; [apply persist_final_state|].
  intros h'. rewrite graph_seeded. intros [= <-].
  unfold merge_back. cbn [fst snd]. rewrite persist_final_state.
  eapply evidence_le_heap; [reflexivity|reflexivity|apply heap_le_extracted|apply same_refs_refl].
Qed.

(** ** The confidence of a message *)

(** C6. The confidence is the additive heuristic of the text: 0.18 for
    each strong phrase and 0.05 for each keyword found as a substring
    whatever the case, 0.25 for a link, 0.25 for a payment handle, 0.10
    for a phone number, clipped to 1; it lies between 0 and 1; the
    pipeline stores it, with [scamDetected] its comparison with 0.35,
    whatever the rest of the state, the heap and the generation service
    are; and the comparison is the one of the exact sum with 35
    hundredths. *)
Theorem confidence_is_heuristic (T : Z) (hf : chat_fn) (st : AgentState) (h : heap) :
  let text := incoming_text st in
  _score_scam text = ScoreSpec.heuristic text
  /\ PrimFloat.leb 0 (_score_scam text) = true
  /\ PrimFloat.leb (_score_scam text) 1 = true
  /\ PrimFloat.leb 0.35 (_score_scam text)
     = (35 <=? ScoreSpec.points (ScoreSpec.hits HIGH text)
                 (ScoreSpec.hits SUSPICIOUS_KEYWORDS text)
                 (ScoreSpec.link_present text) (search RE_UPI text) (search RE_PHONE text))%Z
  /\ exists st' h',
       graph_ainvoke T hf st h = Done st' h'
       /\ AgentGraph.confidence st' = Some (_score_scam text)
       /\ AgentGraph.scamDetected st' = Some (PrimFloat.leb 0.35 (_score_scam text)).
Proof.
  cbv zeta.
  pose proof (clip_in_unit_interval _ _
                (ScoreSpec.link_present (incoming_text st))
                (search RE_UPI (incoming_text st)) (search RE_PHONE (incoming_text st))
                (hits_HIGH_le (incoming_text st)) (hits_KEYWORDS_le (incoming_text st)))
    as Hrange.
  apply andb_prop in Hrange as [H0 H1].
  split; [apply score_scam_heuristic|].
  rewrite score_scam_heuristic. unfold ScoreSpec.heuristic.
  split; [exact H0|]. split; [exact H1|].
  split; [apply threshold_exact; [apply hits_HIGH_le | apply hits_KEYWORDS_le]|].
  fold (ScoreSpec.heuristic (incoming_text st)).
  rewrite <- score_scam_heuristic. apply graph_detects.
Qed.

(** ** The reply *)

Section Reply.

Lemma or_str_nonempty a b : b ≠ "" -> or_str a b ≠ "".
Proof. intros Hb. destruct a; [exact Hb|discriminate]. Qed.

Lemma DEFAULT_REPLY_nonempty : DEFAULT_REPLY ≠ "".
Proof. discriminate. Qed.

Lemma reply_or_default_nonempty st : reply_or_default st ≠ "".
Proof. apply or_str_nonempty, DEFAULT_REPLY_nonempty. Qed.

Lemma lstrip_by_all p s :
  (forall c, In c (list_ascii_of_string s) -> p c = true) -> lstrip_by p s = "".
Proof.
  induction s as [|c s IH]; intros H; [reflexivity|].
  cbn. rewrite (H c) by (left; reflexivity). apply IH. intros c' Hc'. apply H. right. exact Hc'.
Qed.

(** A text of whitespace only has an empty first line. *)
Lemma blank_first_line t :
  (forall c, In c (list_ascii_of_string t) -> is_space c = true) ->
  take 500 (strip (first_line (strip t))) = "".
Proof.
  intros H. unfold strip at 2. rewrite (lstrip_by_all _ _ H). reflexivity.
Qed.

Lemma respond_reply st s w resp : respond st s w = Http200 resp -> r_reply resp = reply_or_default st.
Proof.
  unfold respond. destruct (sorted_intelligence s (store w)); [|discriminate].
  intros [= <-]. reflexivity.
Qed.

(** The responses agree except, when they are successes, on the reply. *)
Definition same_but_reply (r r' : http_response) : Prop :=
  match r, r' with
  | Http401, Http401 | Http500, Http500 => True
  | Http200 a, Http200 b =>
      r_status a = r_status b /\ r_scamDetected a = r_scamDetected b
      /\ r_extractedIntelligence a = r_extractedIntelligence b
      /\ r_agentState a = r_agentState b
  | _, _ => False
  end.

(** The environment with another generation service. *)
Definition with_hf (hf : chat_fn) (e : env) : env :=
  {| now_ts := now_ts e; hf_chat := hf; guvi_post := guvi_post e |}.

Lemma enter_with_hf hf' e sid w : enter (with_hf hf' e) sid w = enter e sid w.
Proof. unfold enter, with_hf. cbn [now_ts]. reflexivity. Qed.

Lemma send_guvi_callback_with_hf hf' e sid s h sent :
  send_guvi_callback (with_hf hf' e) sid s h sent = send_guvi_callback e sid s h sent.
Proof. unfold send_guvi_callback, with_hf. cbn [guvi_post]. reflexivity. Qed.

Lemma finalize_step_with_hf hf' e sid a b s w :
  finalize_step (with_hf hf' e) sid a b s w = finalize_step e sid a b s w.
Proof. unfold finalize_step. rewrite send_guvi_callback_with_hf. reflexivity. Qed.

Lemma respond_same_but_reply st st' s w :
  AgentGraph.scamDetected st = AgentGraph.scamDetected st' ->
  AgentGraph.confidence st = AgentGraph.confidence st' ->
  same_but_reply (respond st s w) (respond st' s w).
Proof.
  intros H1 H2. unfold respond. rewrite H1, H2.
  destruct (sorted_intelligence s (store w)); [|exact I].
  cbn [same_but_reply r_status r_scamDetected r_extractedIntelligence r_agentState].
  repeat split.
Qed.

Lemma handler_ignores_generation cfg e hf' ev key w :
  (handle_message cfg (with_hf hf' e) ev key w).2 = (handle_message cfg e ev key w).2
  /\ same_but_reply (handle_message cfg (with_hf hf' e) ev key w).1
                    (handle_message cfg e ev key w).1.
Proof.
  destruct (decide (key = Some (API_KEY cfg))) as [->|Hk].
  2:{ rewrite !handle_message_unauthorized by exact Hk. split; [reflexivity|exact I]. }
  rewrite !handle_message_authorized. cbv zeta. cbn [fst snd].
  rewrite enter_with_hf.
  generalize (enter e (sessionId ev) w). intros sw.
  rewrite !final_state_scamDetected, !final_state_shouldFinalize.
  rewrite finalize_step_with_hf.
  split; [reflexivity|].
  apply respond_same_but_reply.
  - rewrite !final_state_scamDetected. reflexivity.
  - rewrite !final_state_confidence. reflexivity.
Qed.

End Reply.

(** C7 as stated fails: with a message detected as a scam and a generation
    call that comes back with the empty text, the reply stage stores the
    empty text, not its fallback. *)
Lemma empty_generation_counterexample :
  ~ (forall (hf : chat_fn) (st : AgentState) (h : heap),
        AgentGraph.scamDetected st = Some true ->
        (hf (reply_messages st h) 1000%nat = HfRaise
         \/ hf (reply_messages st h) 1000%nat = HfText "") ->
        AgentGraph.reply (node_reply_llm hf st h) = Some FALLBACK_REPLY).
Proof.
  intros H.
  specialize (H (fun _ _ => HfText "")
                (node_detect (state_in (Scenarios.event_of "s1" Scenarios.text1)
                   (Session 0 0 0 false "" 1%positive 2%positive 3%positive 4%positive
                      5%positive)))
                ∅).
  assert (Hscam : AgentGraph.scamDetected
            (node_detect (state_in (Scenarios.event_of "s1" Scenarios.text1)
               (Session 0 0 0 false "" 1%positive 2%positive 3%positive 4%positive 5%positive)))
            = Some true) by (vm_compute; reflexivity).
  specialize (H Hscam (or_intror eq_refl)).
  vm_compute in H. discriminate H.
Qed.

(** C7, amended. When the generation call raises, the reply stage stores
    its fallback text and changes nothing else in the state; whatever the
    generation service does, the handler leaves the same world (sessions,
    sets, latch, reports) and gives the same response but for the reply,
    so that no failure of the service reaches the caller. *)
Theorem generation_failure_contained (cfg : config) (e : env) (hf' : chat_fn)
    (event : IncomingEvent) (key : option string) (w : world) :
  (forall (st : AgentState) (h : heap),
      AgentGraph.scamDetected st = Some true ->
      hf_chat e (reply_messages st h) 1000%nat = HfRaise ->
      node_reply_llm (hf_chat e) st h = with_reply FALLBACK_REPLY st)
  /\ (handle_message cfg (with_hf hf' e) event key w).2 = (handle_message cfg e event key w).2
  /\ same_but_reply (handle_message cfg (with_hf hf' e) event key w).1
                    (handle_message cfg e event key w).1.
Proof.
  split; [|apply handler_ignores_generation].
  intros st h Hscam Hraise. unfold node_reply_llm. rewrite Hscam, Hraise. reflexivity.
Qed.

(** With the collector and the generation service both failing, the
    reply stage falls back on the state the detect node leaves for the
    text of scenario 1. *)
Lemma generation_failure_contained_witness :
  let st := node_detect (state_in (Scenarios.event_of "s1" Scenarios.text1)
              (Session 0 0 0 false "" 1%positive 2%positive 3%positive 4%positive 5%positive)) in
  AgentGraph.scamDetected st = Some true
  /\ node_reply_llm (hf_chat Scenarios.env_down) st ∅ = with_reply FALLBACK_REPLY st.
Proof.
  cbv zeta.
  assert (Hscam : AgentGraph.scamDetected
            (node_detect (state_in (Scenarios.event_of "s1" Scenarios.text1)
               (Session 0 0 0 false "" 1%positive 2%positive 3%positive 4%positive 5%positive)))
            = Some true) by (vm_compute; reflexivity).
  split; [exact Hscam|].
  exact (proj1 (generation_failure_contained default_config Scenarios.env_down
                  (fun _ _ => HfRaise) (Scenarios.event_of "s1" Scenarios.text1) None
                  initial_world) _ ∅ Hscam eq_refl).
Defined.

(** C10. A successful response never carries an empty reply: its reply is
    the reply of the final state, or a constant of the handler when that
    reply is missing or empty, as it is when the generation call comes
    back with whitespace only; the constant is not empty and is not the
    fallback of the reply stage. *)
Theorem reply_never_empty (cfg : config) (e : env) (event : IncomingEvent)
    (key : option string) (w : world) :
  (forall resp, (handle_message cfg e event key w).1 = Http200 resp -> r_reply resp ≠ "")
  /\ (forall st, AgentGraph.reply st = None \/ AgentGraph.reply st = Some "" ->
                 reply_or_default st = DEFAULT_REPLY)
  /\ (forall st, reply_or_default st = DEFAULT_REPLY \/
                 AgentGraph.reply st = Some (reply_or_default st))
  /\ (forall st h t,
         AgentGraph.scamDetected st = Some true ->
         hf_chat e (reply_messages st h) 1000%nat = HfText t ->
         (forall c, In c (list_ascii_of_string t) -> is_space c = true) ->
         AgentGraph.reply (node_reply_llm (hf_chat e) st h) = Some ""
         /\ reply_or_default (node_reply_llm (hf_chat e) st h) = DEFAULT_REPLY)
  /\ DEFAULT_REPLY ≠ "" /\ DEFAULT_REPLY ≠ FALLBACK_REPLY.
Proof.
  split; [|split; [|split; [|split; [|split]]]].
  - intros resp.
    destruct (decide (key = Some (API_KEY cfg))) as [->|Hk].
    2:{ rewrite handle_message_unauthorized by exact Hk. discriminate. }
    rewrite handle_message_authorized. cbn zeta. cbn [fst].
    intros H. rewrite (respond_reply _ _ _ _ H). apply reply_or_default_nonempty.
  - intros st [H|H]; unfold reply_or_default; rewrite H; reflexivity.
  - intros st. unfold reply_or_default.
    destruct (AgentGraph.reply st) as [[|c r]|]; [left|right|left]; reflexivity.
  - intros st h t Hscam Ht Hblank. unfold reply_or_default, node_reply_llm.
    rewrite Hscam, Ht. unfold truthy, default. cbn [from_option id negb].
    rewrite (blank_first_line t Hblank). split; reflexivity.
  - apply DEFAULT_REPLY_nonempty.
  - discriminate.
Qed.

(** The generation service answers with the empty text to the first
    message of scenario 1; the caller reads the constant of the handler. *)
Lemma reply_never_empty_witness :
  exists resp,
    (handle_message default_config Scenarios.env_empty
       (Scenarios.event_of "s1" Scenarios.text1) (Some "CHANGE_ME") initial_world).1
    = Http200 resp
    /\ r_reply resp = DEFAULT_REPLY /\ r_reply resp ≠ "".
Proof.
  eexists. split; [vm_compute; reflexivity|]. split; [reflexivity|].
  apply (proj1 (reply_never_empty default_config Scenarios.env_empty
                  (Scenarios.event_of "s1" Scenarios.text1) (Some "CHANGE_ME") initial_world)).
  vm_compute. reflexivity.
Defined.

(** ** Scenario 1, the first message of a session *)

Section Scenario1.

Lemma sorted_intelligence_same_refs s s' h :
  same_refs s s' -> sorted_intelligence s h = sorted_intelligence s' h.
Proof.
  intros (H1 & H2 & H3 & H4 & H5). unfold sorted_intelligence.
  rewrite H1, H2, H3, H4, H5. reflexivity.
Qed.

(** The finalize block when it is entered and the sets can be sorted:
    the latch is set and exactly one report is posted, whatever the
    collector answers. *)
Lemma finalize_step_posts e sid s w intel :
  finalized s = false ->
  sorted_intelligence s (store w) = Some intel ->
  let sw := finalize_step e sid true true s w in
  finalized sw.1 = true /\ same_refs s sw.1 /\ store sw.2 = store w
  /\ SESSIONS sw.2 = <[sid := sw.1]> (SESSIONS w)
  /\ exists p, outbox sw.2 = outbox w ++ [p] /\ p_sessionId p = sid
               /\ p_extractedIntelligence p = intel.
Proof.
  intros Hf Hs. unfold finalize_step. rewrite Hf. cbn [andb negb].
  unfold send_guvi_callback.
  rewrite (sorted_intelligence_same_refs (mark_finalized s) s (store w))
    by (repeat split).
  rewrite Hs.
  destruct (guvi_post e _) as [code|].
  - destruct (400 <=? code)%Z; cbn;
      (split; [reflexivity|]; split; [repeat split|]; split; [reflexivity|];
       split; [reflexivity|]; eexists; repeat split).
  - cbn. split; [reflexivity|]. split; [repeat split|]. split; [reflexivity|].
    split; [reflexivity|]. eexists. repeat split.
Qed.

Definition heap5 : heap :=
  <[5%positive := ∅]> (<[4%positive := ∅]> (<[3%positive := ∅]>
    (<[2%positive := ∅]> (<[1%positive := ∅]> ∅)))).

(** The session a first request creates, as it is when the pipeline starts. *)
Definition first_session (now : Z) : session :=
  Session now now 1 false "" 1%positive 2%positive 3%positive 4%positive 5%positive.

Lemma enter_initial e sid :
  enter e sid initial_world
  = (first_session (now_ts e),
     World {[sid := first_session (now_ts e)]} {[sid]} heap5 []).
Proof.
  unfold enter, get_lock, get_session, initial_world. cbn [LOCKS SESSIONS store outbox].
  rewrite decide_False by set_solver. cbn [LOCKS SESSIONS store outbox].
  rewrite lookup_empty.
  assert (E1 : new_set ∅ = (1%positive, <[1%positive := ∅]> ∅))
    by (vm_compute; reflexivity).
  assert (E2 : new_set (<[1%positive := ∅]> ∅)
               = (2%positive, <[2%positive := ∅]> (<[1%positive := ∅]> ∅)))
    by (vm_compute; reflexivity).
  assert (E3 : new_set (<[2%positive := ∅]> (<[1%positive := ∅]> ∅))
               = (3%positive,
                  <[3%positive := ∅]> (<[2%positive := ∅]> (<[1%positive := ∅]> ∅))))
    by (vm_compute; reflexivity).
  assert (E4 : new_set (<[3%positive := ∅]> (<[2%positive := ∅]> (<[1%positive := ∅]> ∅)))
               = (4%positive,
                  <[4%positive := ∅]> (<[3%positive := ∅]> (<[2%positive := ∅]>
                    (<[1%positive := ∅]> ∅)))))
    by (vm_compute; reflexivity).
  assert (E5 : new_set (<[4%positive := ∅]> (<[3%positive := ∅]> (<[2%positive := ∅]>
                          (<[1%positive := ∅]> ∅))))
               = (5%positive, heap5))
    by (vm_compute; reflexivity).
  rewrite E1, E2, E3, E4, E5.
  unfold put_session, touch, first_session. cbn [SESSIONS LOCKS store outbox
    createdAt updatedAt totalMessagesExchanged finalized agentNotes bankAccounts upiIds
    phishingLinks phoneNumbers suspiciousKeywords].
  rewrite insert_insert_eq, insert_empty, union_empty_r_L. reflexivity.
Qed.

End Scenario1.

(** What the extract node leaves in the four sets of a fresh session for
    the text of scenario 1. *)
Lemma scenario1_sets :
  let h' := extract_heap Scenarios.text1 1%positive 2%positive 3%positive 4%positive
              5%positive heap5 in
  deref h' 3%positive = {[ PStr "bit.ly/xyz123" ]}
  /\ deref h' 2%positive = {[ PTuple ["upi"; "ybl"] ]}
  /\ deref h' 4%positive = {[ PStr "9876543210" ]}
  /\ deref h' 1%positive = {[ PStr "9876543210" ]}.
Proof.
  cbv zeta.
  assert (H : bool_decide
                (deref (extract_heap Scenarios.text1 1%positive 2%positive 3%positive
                          4%positive 5%positive heap5) 3%positive
                 = {[ PStr "bit.ly/xyz123" ]})
              && bool_decide
                   (deref (extract_heap Scenarios.text1 1%positive 2%positive 3%positive
                             4%positive 5%positive heap5) 2%positive
                    = {[ PTuple ["upi"; "ybl"] ]})
              && bool_decide
                   (deref (extract_heap Scenarios.text1 1%positive 2%positive 3%positive
                             4%positive 5%positive heap5) 4%positive
                    = {[ PStr "9876543210" ]})
              && bool_decide
                   (deref (extract_heap Scenarios.text1 1%positive 2%positive 3%positive
                             4%positive 5%positive heap5) 1%positive
                    = {[ PStr "9876543210" ]}) = true)
    by (vm_compute; reflexivity).
  apply andb_prop in H as [H H4]. apply andb_prop in H as [H H3].
  apply andb_prop in H as [H1 H2].
  apply bool_decide_eq_true_1 in H1, H2, H3, H4. auto.
Qed.

(** C1, read on the code. The first message of scenario 1 is detected
    with confidence 1, its link and its phone number enter the sets as
    strings, all four categories have a member, the session is finalized
    and one report is posted, whatever the generation service and the
    collector do. The payment handle is not stored as the string
    "upi@ybl": the pattern has two groups, so [findall] gives the pair of
    its two parts and the set holds this pair. *)
Theorem scenario1_first_message (e : env) :
  let rw := handle_message default_config e (Scenarios.event_of "s1" Scenarios.text1)
              (Some "CHANGE_ME") initial_world in
  exists resp s,
    rw.1 = Http200 resp /\ SESSIONS rw.2 !! "s1" = Some s
    /\ r_scamDetected resp = true
    /\ a_confidence (r_agentState resp) = 1%float
    /\ (PStr "bit.ly/xyz123" ∈ links (evidence_of rw.2 s))
    /\ (PStr "9876543210" ∈ phoneNumbers_ (evidence_of rw.2 s))
    /\ paymentHandles (evidence_of rw.2 s) = {[ PTuple ["upi"; "ybl"] ]}
    /\ (PStr "upi@ybl" ∉ paymentHandles (evidence_of rw.2 s))
    /\ category_count (evidence_of rw.2 s) = 4%Z
    /\ finalized s = true /\ a_finalized (r_agentState resp) = true
    /\ reports "s1" rw.2 = 1%nat.
Proof.
  cbv zeta.
  change (Some "CHANGE_ME") with (Some (API_KEY default_config)).
  rewrite handle_message_authorized. cbv zeta.
  change (sessionId (Scenarios.event_of "s1" Scenarios.text1)) with "s1".
  rewrite enter_initial. cbn [fst snd store].
  set (ev := Scenarios.event_of "s1" Scenarios.text1).
  set (sess := first_session (now_ts e)).
  rewrite final_state_scamDetected, final_state_shouldFinalize.
  change (text (message ev)) with Scenarios.text1.
  assert (Hscore : _score_scam Scenarios.text1 = 1%float) by (vm_compute; reflexivity).
  rewrite Hscore.
  change (extracted ev sess heap5)
    with (extract_heap Scenarios.text1 1%positive 2%positive 3%positive 4%positive
            5%positive heap5).
  set (h' := extract_heap Scenarios.text1 1%positive 2%positive 3%positive 4%positive
               5%positive heap5).
  destruct scenario1_sets as (Hlinks & Hupi & Hphones & Hbank).
  fold h' in Hlinks, Hupi, Hphones, Hbank.
  assert (Hshould : _should_finalize (FINALIZE_MIN_ARTIFACTS default_config)
                      (detected ev sess) h' = true).
  { unfold _should_finalize, detected, has_members.
    cbn [AgentGraph.phishingLinks AgentGraph.upiIds AgentGraph.phoneNumbers
         AgentGraph.bankAccounts with_sets].
    change (phishingLinks sess) with 3%positive. change (upiIds sess) with 2%positive.
    change (phoneNumbers sess) with 4%positive. change (bankAccounts sess) with 1%positive.
    rewrite Hlinks, Hupi, Hphones, Hbank, !size_singleton. reflexivity. }
  rewrite Hshould.
  assert (Hthr : PrimFloat.leb 0.35 1 = true) by (vm_compute; reflexivity).
  rewrite Hthr. unfold default. cbn [from_option id andb].
  set (w4 := put_session "s1" sess _).
  assert (Hsortable : is_Some (sorted_intelligence (first_session 0) h')).
  { apply (bool_decide_unpack _). vm_compute. exact I. }
  destruct Hsortable as [intel Hsorted].
  assert (Hs4 : sorted_intelligence sess (store w4) = Some intel).
  { rewrite <- Hsorted. apply sorted_intelligence_same_refs. repeat split. }
  pose proof (finalize_step_posts e "s1" sess w4 intel eq_refl Hs4)
    as (Hfin & Hrefs & Hstore & Hsess & p & Hout & Hp & _).
  cbv zeta in Hfin, Hrefs, Hstore, Hsess, Hout.
  set (sw := finalize_step e "s1" true true sess w4) in *.
  assert (Hs5 : sorted_intelligence sw.1 (store sw.2) = Some intel).
  { rewrite Hstore, <- Hs4. symmetry. apply sorted_intelligence_same_refs, Hrefs. }
  unfold respond. rewrite Hs5, final_state_scamDetected, final_state_confidence.
  change (text (message ev)) with Scenarios.text1. rewrite Hscore, Hthr.
  destruct Hrefs as (R1 & R2 & R3 & R4 & R5).
  eexists _, sw.1.
  split; [reflexivity|]. split; [rewrite Hsess; apply lookup_insert_eq|].
  split; [reflexivity|]. split; [reflexivity|].
  unfold evidence_of, category_count. cbn [links paymentHandles phoneNumbers_ accountNumbers].
  rewrite Hstore, <- R1, <- R2, <- R3, <- R4.
  change (store w4) with h'.
  change (phishingLinks sess) with 3%positive. change (upiIds sess) with 2%positive.
  change (phoneNumbers sess) with 4%positive. change (bankAccounts sess) with 1%positive.
  rewrite Hlinks, Hupi, Hphones, Hbank.
  split; [apply elem_of_singleton; reflexivity|].
  split; [apply elem_of_singleton; reflexivity|]. split; [reflexivity|].
  split; [intros H%elem_of_singleton; discriminate H|].
  split.
  { rewrite !bool_decide_eq_true_2 by (apply non_empty_singleton_L). reflexivity. }
  split; [exact Hfin|]. split; [exact Hfin|].
  unfold reports. rewrite Hout. cbn. rewrite Hp. reflexivity.
Qed.

(** ** Tokens of digits in a text *)

Section Tokens.

#[local] Arguments is_digit : simpl never.
#[local] Arguments is_word : simpl never.
#[local] Arguments is_space : simpl never.
#[local] Arguments is_6_to_9 : simpl never.
#[local] Arguments is_dash_or_space : simpl never.
#[local] Arguments boundary : simpl never.

(** Every character of [s] satisfies [p]. *)
Fixpoint all_of (p : ascii -> bool) (s : string) : bool :=
  match s with
  | EmptyString => true
  | String c s' => p c && all_of p s'
  end.

(** The character before the cursor once [s] is passed. *)
Fixpoint last_char (prev : option ascii) (s : string) : option ascii :=
  match s with
  | EmptyString => prev
  | String c s' => last_char (Some c) s'
  end.

Lemma app_nil_s (b : string) : "" +:+ b = b.
Proof. reflexivity. Qed.

Lemma app_cons_s (x : ascii) (a b : string) : String x a +:+ b = String x (a +:+ b).
Proof. reflexivity. Qed.

Lemma app_assoc_s (a b c : string) : (a +:+ b) +:+ c = a +:+ (b +:+ c).
Proof.
  induction a as [|x a IH]; [reflexivity|]. rewrite !app_cons_s, IH. reflexivity.
Qed.

Lemma length_app_s (a b : string) :
  String.length (a +:+ b) = (String.length a + String.length b)%nat.
Proof.
  induction a as [|x a IH]; [reflexivity|]. rewrite app_cons_s. cbn. rewrite IH. reflexivity.
Qed.

Lemma last_char_app prev a b : last_char prev (a +:+ b) = last_char (last_char prev a) b.
Proof.
  revert prev. induction a as [|x a IH]; intros prev; [reflexivity|].
  rewrite app_cons_s. cbn. apply IH.
Qed.

Lemma last_char_nonempty prev prev' s : s ≠ "" -> last_char prev s = last_char prev' s.
Proof. destruct s; [congruence|reflexivity]. Qed.

Lemma take_app_length (a b : string) : take (String.length a) (a +:+ b) = a.
Proof.
  induction a as [|x a IH]; [destruct b; reflexivity|].
  rewrite app_cons_s. cbn. rewrite IH. reflexivity.
Qed.

(** Two ways to cut the same text: the shorter first part is a prefix of
    the longer one. *)
Lemma app_eq_split (a b c d : string) :
  a +:+ b = c +:+ d ->
  (exists m, c = a +:+ m /\ b = m +:+ d) \/ (exists m, m ≠ "" /\ a = c +:+ m /\ d = m +:+ b).
Proof.
  revert c. induction a as [|x a IH]; intros c H.
  - left. exists c. split; [reflexivity|exact H].
  - destruct c as [|y c].
    + right. exists (String x a). split; [discriminate|]. split; [reflexivity|]. symmetry. exact H.
    + rewrite !app_cons_s in H. injection H as -> H.
      destruct (IH c H) as [(m & -> & ->)|(m & Hm & -> & ->)].
      * left. exists m. split; reflexivity.
      * right. exists m. split; [exact Hm|]. split; reflexivity.
Qed.

Lemma all_of_app p a b : all_of p (a +:+ b) = all_of p a && all_of p b.
Proof.
  induction a as [|x a IH]; [reflexivity|].
  rewrite app_cons_s. cbn. rewrite IH, andb_assoc. reflexivity.
Qed.

Lemma all_of_last p prev s c : all_of p s = true -> s ≠ "" -> last_char prev s = Some c -> p c = true.
Proof.
  revert prev. induction s as [|x s IH]; intros prev Hall Hne Hl; [congruence|].
  cbn in Hall. apply andb_prop in Hall as [Hx Hs]. cbn in Hl.
  destruct s as [|y s]; [cbn in Hl; congruence|].
  apply (IH (Some x)); [exact Hs|discriminate|exact Hl].
Qed.

Lemma last_char_Some prev s : s ≠ "" -> exists c, last_char prev s = Some c.
Proof.
  revert prev. induction s as [|x s IH]; intros prev Hne; [congruence|].
  destruct s as [|y s]; [exists x; reflexivity|]. apply (IH (Some x)). discriminate.
Qed.

(** *** Character classes *)

Lemma is_digit_word c : is_digit c = true -> is_word c = true.
Proof. intros H. unfold is_word. rewrite H. reflexivity. Qed.

Lemma is_6_to_9_digit c : is_6_to_9 c = true -> is_digit c = true.
Proof.
  unfold is_6_to_9, is_digit, in_range. intros H. apply andb_prop in H as [H1 H2].
  apply N.leb_le in H1. apply N.leb_le in H2.
  apply andb_true_intro. split; apply N.leb_le; lia.
Qed.

Lemma is_digit_not_space c : is_digit c = true -> is_space c = false.
Proof.
  unfold is_digit, is_space, in_range, is_code. intros H. apply andb_prop in H as [H1 H2].
  apply N.leb_le in H1. apply N.leb_le in H2.
  repeat (apply orb_false_intro);
    try (apply andb_false_iff; (left; apply N.leb_gt; lia) || (right; apply N.leb_gt; lia));
    apply N.eqb_neq; lia.
Qed.

Lemma is_digit_not_dash_or_space c : is_digit c = true -> is_dash_or_space c = false.
Proof.
  intros H. unfold is_dash_or_space. rewrite (is_digit_not_space c H), orb_false_r.
  unfold one_of. cbn. rewrite orb_false_r.
  destruct (Ascii.eqb_spec c "-") as [->|]; [|reflexivity]. discriminate H.
Qed.

Lemma word_opt_digit c : is_digit c = true -> word_opt (Some c) = true.
Proof. apply is_digit_word. Qed.

(** *** The greedy repetition *)

Lemma rep_sound {R} p lo hi prev s n (k : option ascii -> string -> nat -> option R) r :
  rep p lo hi prev s n k = Some r ->
  exists w s', s = w +:+ s' /\ all_of p w = true /\ (lo <= String.length w)%nat
    /\ (forall m, hi = Some m -> (String.length w <= m)%nat)
    /\ k (last_char prev w) s' (n + String.length w)%nat = Some r.
Proof.
  revert lo hi prev n. induction s as [|c s IH]; intros lo hi prev n H.
  - cbn in H. destruct lo; [|discriminate]. exists "", "".
    cbn. rewrite Nat.add_0_r. repeat split; [lia|intros; lia|exact H].
  - cbn [rep] in H.
    assert (Hstop : match lo with O => k prev (String c s) n | S _ => None end = Some r ->
                    exists w s', String c s = w +:+ s' /\ all_of p w = true
                      /\ (lo <= String.length w)%nat
                      /\ (forall m, hi = Some m -> (String.length w <= m)%nat)
                      /\ k (last_char prev w) s' (n + String.length w)%nat = Some r).
    { intros Hk. destruct lo; [|discriminate]. exists "", (String c s).
      cbn. rewrite Nat.add_0_r. repeat split; [lia|intros; lia|exact Hk]. }
    destruct (p c && may_repeat hi) eqn:E; [|exact (Hstop H)].
    destruct (rep p (Nat.pred lo) (Nat.pred <$> hi) (Some c) s (S n) k) as [r'|] eqn:E2;
      [|exact (Hstop H)].
    injection H as ->. apply andb_prop in E as [Hpc Hrep].
    apply IH in E2 as (w & s' & -> & Hall & Hlo & Hhi & Hk).
    exists (String c w), s'. rewrite app_cons_s. cbn [all_of String.length last_char].
    split; [reflexivity|]. split; [rewrite Hpc; exact Hall|]. split; [lia|].
    split.
    + intros m ->. destruct m as [|m]; [discriminate Hrep|].
      specialize (Hhi m eq_refl). lia.
    + rewrite <- Hk. f_equal. lia.
Qed.

(** The repetition takes the whole run when it may stop there and the
    rest of the pattern matches behind it. *)
Lemma rep_greedy {R} p lo hi prev w s' n (k : option ascii -> string -> nat -> option R) r :
  all_of p w = true ->
  (match s' with String c _ => p c = false | EmptyString => True end
   \/ hi = Some (String.length w)) ->
  (lo <= String.length w)%nat ->
  (forall m, hi = Some m -> (String.length w <= m)%nat) ->
  k (last_char prev w) s' (n + String.length w)%nat = Some r ->
  rep p lo hi prev (w +:+ s') n k = Some r.
Proof.
  revert lo hi prev n. induction w as [|x w IH]; intros lo hi prev n Hall Hend Hlo Hhi Hk.
  - rewrite app_nil_s. cbn in Hk, Hlo. rewrite Nat.add_0_r in Hk.
    assert (lo = 0%nat) as -> by lia.
    destruct s' as [|c s']; [exact Hk|]. cbn [rep].
    destruct Hend as [Hc| ->]; [rewrite Hc; exact Hk|].
    cbn. rewrite andb_false_r. exact Hk.
  - rewrite app_cons_s. cbn [rep]. cbn in Hall. apply andb_prop in Hall as [Hx Hw].
    rewrite Hx. cbn [String.length last_char] in *.
    assert (Hrep : may_repeat hi = true).
    { destruct hi as [[|m]|]; try reflexivity. specialize (Hhi 0%nat eq_refl). lia. }
    rewrite Hrep. cbn [andb].
    rewrite (IH (Nat.pred lo) (Nat.pred <$> hi) (Some x) (S n)); [reflexivity|exact Hw| | | |].
    + destruct Hend as [Hc| ->]; [left; exact Hc|right; reflexivity].
    + lia.
    + intros m Hm. destruct hi as [m'|]; [|discriminate]. cbn in Hm. injection Hm as <-.
      specialize (Hhi m' eq_refl). lia.
    + rewrite <- Hk. f_equal. lia.
Qed.

(** *** The ten digits of a phone number *)

(** The part [[6-9]\d{9}\b] of the phone pattern. *)
Definition digits10 (prev : option ascii) (s : string) (n : nat) : option (nat * list string) :=
  match s with
  | EmptyString => None
  | String x s' =>
      if is_6_to_9 x
      then rep (in_class false (pos is_digit)) 9 (Some 9) (Some x) s' (S n)
             (fun prev' s'' n' => if boundary prev' s'' then Some (n', []) else None)
      else None
  end.

(** A token of ten digits, the first from 6 to 9. *)
Definition is_phone_token (tok : string) : bool :=
  (String.length tok =? 10)%nat && all_of is_digit tok
  && match tok with String c _ => is_6_to_9 c | EmptyString => false end.

Lemma in_class_pos p x : in_class false (pos p) x = p x.
Proof. reflexivity. Qed.

Lemma all_of_ext p q s : (forall c, p c = q c) -> all_of p s = all_of q s.
Proof. intros H. induction s as [|c s IH]; [reflexivity|]. cbn. rewrite H, IH. reflexivity. Qed.

Lemma boundary_after_digit c s prev' :
  is_digit c = true -> prev' = Some c -> boundary prev' s = negb (word_opt (head s)).
Proof. intros Hc ->. unfold boundary. rewrite (word_opt_digit c Hc). reflexivity. Qed.

Lemma digits10_sound prev s n m caps :
  digits10 prev s n = Some (m, caps) ->
  exists w s', s = w +:+ s' /\ String.length w = 10%nat /\ all_of is_digit w = true
    /\ word_opt (head s') = false /\ m = (n + 10)%nat /\ caps = [].
Proof.
  unfold digits10. destruct s as [|x s0]; [discriminate|].
  destruct (is_6_to_9 x) eqn:Hx; [|discriminate].
  intros H. apply rep_sound in H as (w & s' & -> & Hall & Hlo & Hhi & Hk).
  specialize (Hhi 9%nat eq_refl).
  rewrite (all_of_ext _ is_digit) in Hall by (intros; apply in_class_pos).
  destruct (boundary (last_char (Some x) w) s') eqn:Hb; [|discriminate].
  injection Hk as <- <-.
  exists (String x w), s'. rewrite app_cons_s. cbn [String.length all_of].
  rewrite (is_6_to_9_digit x Hx), Hall.
  split; [reflexivity|]. split; [lia|]. split; [reflexivity|].
  split; [|split; [lia|reflexivity]].
  assert (Hd : exists c, last_char (Some x) w = Some c /\ is_digit c = true).
  { destruct w as [|y w'].
    - exists x. split; [reflexivity|apply is_6_to_9_digit, Hx].
    - destruct (last_char_Some (Some x) (String y w') ltac:(discriminate)) as [c Hc].
      exists c. split; [exact Hc|].
      eapply (all_of_last is_digit (Some x) (String y w')); [exact Hall|discriminate|exact Hc]. }
  destruct Hd as (c & Hc & Hdc).
  rewrite (boundary_after_digit c s' _ Hdc Hc) in Hb.
  apply negb_true_iff in Hb. exact Hb.
Qed.

Lemma digits10_complete prev tok post n :
  is_phone_token tok = true -> word_opt (head post) = false ->
  digits10 prev (tok +:+ post) n = Some ((n + 10)%nat, []).
Proof.
  unfold is_phone_token. intros Htok Hpost.
  apply andb_prop in Htok as [Htok Hfirst]. apply andb_prop in Htok as [Hlen Hall].
  apply Nat.eqb_eq in Hlen.
  destruct tok as [|x w]; [discriminate|]. cbn in Hlen, Hall.
  apply andb_prop in Hall as [_ Hall].
  rewrite app_cons_s. unfold digits10. rewrite Hfirst.
  apply rep_greedy.
  - rewrite (all_of_ext _ is_digit) by (intros; apply in_class_pos). exact Hall.
  - right. f_equal. lia.
  - lia.
  - intros m [= <-]. lia.
  - assert (Hd : exists c, last_char (Some x) w = Some c /\ is_digit c = true).
    { destruct w as [|y w'].
      - exists x. split; [reflexivity|apply is_6_to_9_digit, Hfirst].
      - destruct (last_char_Some (Some x) (String y w') ltac:(discriminate)) as [c Hc].
        exists c. split; [exact Hc|].
        eapply (all_of_last is_digit (Some x) (String y w')); [exact Hall|discriminate|exact Hc]. }
    destruct Hd as (c & Hc & Hdc).
    rewrite (boundary_after_digit c post _ Hdc Hc), Hpost. cbn. f_equal. f_equal. lia.
Qed.

(** *** The two patterns, unfolded *)

#[local] Arguments rep : simpl never.
#[local] Arguments digits10 : simpl never.

(** The phone pattern at the cursor: an optional [+91] with an optional
    separator, tried first, then the ten digits. *)
Definition phone_at (prev : option ascii) (s : string) : option (nat * list string) :=
  if boundary prev s then
    match
      match s with
      | String a (String b (String c s1)) =>
          if Ascii.eqb "+" a && Ascii.eqb "9" b && Ascii.eqb "1" c then
            match
              match s1 with
              | String x s2 => if is_dash_or_space x then digits10 (Some x) s2 4 else None
              | EmptyString => None
              end
            with
            | Some r => Some r
            | None => digits10 (Some c) s1 3
            end
          else None
      | _ => None
      end
    with
    | Some r => Some r
    | None => digits10 prev s 0
    end
  else None.

Lemma match_at_phone prev s : match_at RE_PHONE prev s = phone_at prev s.
Proof.
  unfold match_at, phone_at, RE_PHONE, digits10. cbn [ignorecase body].
  unfold str. unfold seq_of.
  cbn [foldr fmap list_fmap list_ascii_of_string run in_class pos negated member xorb lit_eq].
  destruct (boundary prev s); [|reflexivity].
  destruct s as [|a [|b [|c s1]]]; cbn [andb]; try reflexivity.
  - destruct (Ascii.eqb "+" a); reflexivity.
  - destruct (Ascii.eqb "+" a); [|reflexivity]. destruct (Ascii.eqb "9" b); reflexivity.
  - destruct (Ascii.eqb "+" a); [|reflexivity]. destruct (Ascii.eqb "9" b); [|reflexivity].
    destruct (Ascii.eqb "1" c); [|reflexivity]. cbn [andb].
    destruct s1 as [|x s2]; [reflexivity|].
    destruct (is_dash_or_space x); reflexivity.
Qed.

(** The account pattern at the cursor. *)
Definition bank_at (prev : option ascii) (s : string) : option (nat * list string) :=
  if boundary prev s then
    rep (in_class false (pos is_digit)) 9 (Some 18) prev s 0
      (fun prev' s' n' => if boundary prev' s' then Some (n', []) else None)
  else None.

Lemma match_at_bank prev s : match_at RE_BANK_AC prev s = bank_at prev s.
Proof. reflexivity. Qed.

Lemma phone_at_shape prev s n caps :
  phone_at prev s = Some (n, caps) ->
  exists pfx w s',
    s = pfx +:+ w +:+ s' /\ String.length w = 10%nat /\ all_of is_digit w = true
    /\ word_opt (head s') = false /\ n = (String.length pfx + 10)%nat /\ caps = []
    /\ (pfx = "" \/ pfx = "+91"
        \/ exists x, pfx = String "+" (String "9" (String "1" (String x "")))
                     /\ is_dash_or_space x = true).
Proof.
  unfold phone_at. destruct (boundary prev s); [|discriminate].
  assert (Hbare : digits10 prev s 0 = Some (n, caps) ->
                  exists pfx w s',
                    s = pfx +:+ w +:+ s' /\ String.length w = 10%nat
                    /\ all_of is_digit w = true
                    /\ word_opt (head s') = false /\ n = (String.length pfx + 10)%nat
                    /\ caps = []
                    /\ (pfx = "" \/ pfx = "+91"
                        \/ exists x, pfx = String "+" (String "9" (String "1" (String x "")))
                                     /\ is_dash_or_space x = true)).
  { intros H. apply digits10_sound in H as (w & s' & -> & Hlen & Hall & Hs' & -> & ->).
    exists "", w, s'. repeat split; auto. }
  destruct s as [|a [|b [|c s1]]]; try exact Hbare.
  destruct (Ascii.eqb_spec "+" a) as [<-|]; [|exact Hbare].
  destruct (Ascii.eqb_spec "9" b) as [<-|]; [|exact Hbare].
  destruct (Ascii.eqb_spec "1" c) as [<-|]; [|exact Hbare].
  cbn [andb].
  assert (Hshort : digits10 (Some "1"%char) s1 3 = Some (n, caps) ->
                   exists pfx w s',
                     String "+" (String "9" (String "1" s1)) = pfx +:+ w +:+ s'
                     /\ String.length w = 10%nat /\ all_of is_digit w = true
                     /\ word_opt (head s') = false /\ n = (String.length pfx + 10)%nat
                     /\ caps = []
                     /\ (pfx = "" \/ pfx = "+91"
                         \/ exists x, pfx = String "+" (String "9" (String "1" (String x "")))
                                      /\ is_dash_or_space x = true)).
  { intros H. apply digits10_sound in H as (w & s' & -> & Hlen & Hall & Hs' & -> & ->).
    exists "+91", w, s'. repeat split; auto. }
  match goal with
  | |- context [match ?o with Some r => Some r | None => digits10 (Some _) _ 3 end] =>
      destruct o as [[n' caps']|] eqn:Esep
  end.
  - intros [= -> ->]. destruct s1 as [|x s2]; [discriminate|].
    destruct (is_dash_or_space x) eqn:Hx; [|discriminate].
    apply digits10_sound in Esep as (w & s' & -> & Hlen & Hall & Hs' & -> & ->).
    exists (String "+" (String "9" (String "1" (String x "")))), w, s'.
    repeat split; auto. right. right. exists x. split; [reflexivity|exact Hx].
  - destruct (digits10 (Some "1"%char) s1 3) as [[n' caps']|] eqn:Eshort.
    + intros [= -> ->]. apply Hshort. reflexivity.
    + exact Hbare.
Qed.

(** *** Matches before a token do not reach into it *)

(** A run of digits that starts before [b] ends cannot pass the end of
    [b] when the last character of [b] is not a word character. *)
Lemma no_cross_digits w s' b r :
  w +:+ s' = b +:+ r -> all_of is_digit w = true -> b ≠ "" ->
  word_opt (last_char None b) = false ->
  (String.length w <= String.length b)%nat.
Proof.
  intros Heq Hall Hb Hlast.
  destruct (app_eq_split w s' b r Heq) as [(m & -> & _)|(m & Hm & -> & _)].
  - rewrite length_app_s. lia.
  - rewrite all_of_app in Hall. apply andb_prop in Hall as [Hallb _].
    destruct (last_char_Some None b Hb) as [c Hc].
    rewrite Hc in Hlast.
    rewrite (word_opt_digit c (all_of_last is_digit None b c Hallb Hb Hc)) in Hlast.
    discriminate.
Qed.

(** The text before the token ends with [+91] and a dash or a space. *)
Fixpoint country_code_before (pre : string) : bool :=
  match pre with
  | EmptyString => false
  | String a pre' =>
      match pre' with
      | String b (String c (String x EmptyString)) =>
          Ascii.eqb a "+" && Ascii.eqb b "9" && Ascii.eqb c "1" && is_dash_or_space x
      | _ => false
      end
      || country_code_before pre'
  end.

Lemma country_code_before_app a b :
  country_code_before b = true -> country_code_before (a +:+ b) = true.
Proof.
  intros H. induction a as [|x a IH]; [exact H|].
  rewrite app_cons_s. cbn [country_code_before]. rewrite IH. apply orb_true_r.
Qed.

(** A run of digits that starts at the token cannot be longer than it. *)
Lemma digits_in_token tok post m s' :
  is_phone_token tok = true -> word_opt (head post) = false ->
  tok +:+ post = m +:+ s' -> all_of is_digit m = true ->
  (String.length m <= 10)%nat.
Proof.
  unfold is_phone_token. intros Htok Hpost Heq Hall.
  apply andb_prop in Htok as [Htok _]. apply andb_prop in Htok as [Hlen _].
  apply Nat.eqb_eq in Hlen.
  destruct (app_eq_split tok post m s' Heq) as [(k & -> & ->)|(k & _ & -> & _)].
  - destruct k as [|c k]; [rewrite length_app_s; cbn; lia|].
    rewrite all_of_app in Hall. apply andb_prop in Hall as [_ Hk].
    cbn in Hk. apply andb_prop in Hk as [Hc _].
    rewrite app_cons_s in Hpost. cbn [head word_opt] in Hpost.
    rewrite (is_digit_word c Hc) in Hpost. discriminate.
  - rewrite length_app_s in Hlen. lia.
Qed.

Lemma phone_no_cross prev b tok post n caps :
  b ≠ "" -> word_opt (last_char None b) = false -> country_code_before b = false ->
  is_phone_token tok = true -> word_opt (head post) = false ->
  phone_at prev (b +:+ tok +:+ post) = Some (n, caps) ->
  (n <= String.length b)%nat.
Proof.
  intros Hb Hlast Hbare Htok Hpost H.
  apply phone_at_shape in H as (pfx & w & s' & Heq & Hlen & Hall & Hs' & -> & _ & Hpfx).
  destruct Hpfx as [->|[->|(x & -> & Hx)]].
  - rewrite app_nil_s in Heq. symmetry in Heq.
    pose proof (no_cross_digits w s' b _ Heq Hall Hb Hlast). cbn. lia.
  - destruct b as [|c0 b1]; [congruence|].
    rewrite !app_cons_s in Heq. injection Heq as ? Heq; subst.
    destruct b1 as [|c1 b2].
    { rewrite app_nil_s in Heq.
      assert (Hm : all_of is_digit (String "9" (String "1" w)) = true)
        by (cbn [all_of]; rewrite Hall; reflexivity).
      pose proof (digits_in_token tok post (String "9" (String "1" w)) s' Htok Hpost
                    Heq Hm) as Hle.
      cbn in Hle. lia. }
    rewrite !app_cons_s in Heq. injection Heq as ? Heq; subst.
    destruct b2 as [|c2 b3]; [vm_compute in Hlast; discriminate Hlast|].
    rewrite !app_cons_s in Heq. injection Heq as ? Heq; subst.
    destruct b3 as [|c3 b4]; [vm_compute in Hlast; discriminate Hlast|].
    symmetry in Heq.
    pose proof (no_cross_digits w s' (String c3 b4) _ Heq Hall ltac:(discriminate) Hlast).
    cbn [String.length] in *. lia.
  - destruct b as [|c0 b1]; [congruence|].
    rewrite !app_cons_s in Heq. injection Heq as ? Heq; subst.
    destruct b1 as [|c1 b2].
    { rewrite app_nil_s in Heq. exfalso.
      unfold is_phone_token in Htok. apply andb_prop in Htok as [Htok _].
      apply andb_prop in Htok as [Hl Ha]. apply Nat.eqb_eq in Hl.
      destruct tok as [|t0 [|t1 [|t2 tok']]]; try discriminate Hl.
      rewrite !app_cons_s in Heq. injection Heq as _ _ -> _.
      cbn in Ha. apply andb_prop in Ha as [_ Ha]. apply andb_prop in Ha as [_ Ha].
      apply andb_prop in Ha as [Ha _].
      rewrite (is_digit_not_dash_or_space x Ha) in Hx. discriminate. }
    rewrite !app_cons_s in Heq. injection Heq as ? Heq; subst.
    destruct b2 as [|c2 b3]; [vm_compute in Hlast; discriminate Hlast|].
    rewrite !app_cons_s in Heq. injection Heq as ? Heq; subst.
    destruct b3 as [|c3 b4]; [vm_compute in Hlast; discriminate Hlast|].
    rewrite !app_cons_s in Heq. injection Heq as ? Heq; subst.
    destruct b4 as [|c4 b5].
    { exfalso. cbn in Hbare. rewrite Hx in Hbare. discriminate. }
    symmetry in Heq.
    pose proof (no_cross_digits w s' (String c4 b5) _ Heq Hall ltac:(discriminate) Hlast).
    cbn [String.length] in *. lia.
Qed.

Lemma bank_no_cross prev b r n caps :
  b ≠ "" -> word_opt (last_char None b) = false ->
  bank_at prev (b +:+ r) = Some (n, caps) -> (n <= String.length b)%nat.
Proof.
  intros Hb Hlast. unfold bank_at. destruct (boundary prev (b +:+ r)); [|discriminate].
  intros H. apply rep_sound in H as (w & s' & Heq & Hall & _ & _ & Hk).
  destruct (boundary _ s'); [|discriminate]. injection Hk as <- _.
  rewrite (all_of_ext _ is_digit) in Hall by (intros; apply in_class_pos).
  symmetry in Heq. pose proof (no_cross_digits w s' b r Heq Hall Hb Hlast). lia.
Qed.

(** *** The token itself matches *)

Lemma phone_at_token prev tok post :
  word_opt prev = false -> is_phone_token tok = true -> word_opt (head post) = false ->
  phone_at prev (tok +:+ post) = Some (10%nat, []).
Proof.
  intros Hprev Htok Hpost.
  pose proof (digits10_complete prev tok post 0 Htok Hpost) as Hd.
  unfold is_phone_token in Htok. apply andb_prop in Htok as [Htok Hfirst].
  apply andb_prop in Htok as [Hlen Hall].
  destruct tok as [|a tok']; [discriminate|].
  assert (Hplus : Ascii.eqb "+" a = false).
  { destruct (Ascii.eqb_spec "+" a) as [<-|]; [discriminate Hfirst|reflexivity]. }
  unfold phone_at. rewrite app_cons_s in *.
  assert (Hb : boundary prev (String a (tok' +:+ post)) = true).
  { unfold boundary. rewrite Hprev. cbn [head word_opt].
    rewrite (is_digit_word a (is_6_to_9_digit a Hfirst)). reflexivity. }
  rewrite Hb.
  destruct (tok' +:+ post) as [|b [|c s1]]; try exact Hd.
  rewrite Hplus. cbn [andb]. exact Hd.
Qed.

Lemma bank_at_token prev tok post :
  word_opt prev = false -> is_phone_token tok = true -> word_opt (head post) = false ->
  bank_at prev (tok +:+ post) = Some (10%nat, []).
Proof.
  intros Hprev Htok Hpost.
  unfold is_phone_token in Htok. apply andb_prop in Htok as [Htok Hfirst].
  apply andb_prop in Htok as [Hlen Hall]. apply Nat.eqb_eq in Hlen.
  unfold bank_at.
  assert (Hb : boundary prev (tok +:+ post) = true).
  { destruct tok as [|a tok']; [discriminate|]. rewrite app_cons_s.
    unfold boundary. rewrite Hprev. cbn [head word_opt].
    rewrite (is_digit_word a (is_6_to_9_digit a Hfirst)). reflexivity. }
  rewrite Hb. apply rep_greedy.
  - rewrite (all_of_ext _ is_digit) by (intros; apply in_class_pos). exact Hall.
  - left. destruct post as [|c post']; [exact I|]. rewrite in_class_pos.
    cbn in Hpost. destruct (is_digit c) eqn:Hc; [|reflexivity].
    rewrite (is_digit_word c Hc) in Hpost. discriminate.
  - lia.
  - intros m [= <-]. lia.
  - destruct (last_char_Some prev tok ltac:(destruct tok; [discriminate|discriminate]))
      as [c Hc].
    rewrite (boundary_after_digit c post _
               (all_of_last is_digit prev tok c Hall
                  ltac:(destruct tok; [discriminate|discriminate]) Hc) Hc), Hpost.
    cbn. rewrite Hlen. reflexivity.
Qed.

(** *** The scan reaches the token *)

(** No match that starts inside [pre] ends after it. *)
Definition no_cross (p : pattern) (pre rest : string) : Prop :=
  forall a b, pre = a +:+ b -> b ≠ "" ->
  forall prev n caps, match_at p prev (b +:+ rest) = Some (n, caps) ->
    (n <= String.length b)%nat.

Lemma no_cross_tail p c pre rest : no_cross p (String c pre) rest -> no_cross p pre rest.
Proof.
  intros H a b -> Hb. apply (H (String c a) b); [reflexivity|exact Hb].
Qed.

Lemma scan_reaches p pre rest prev skip n0 caps0 :
  no_cross p pre rest -> (skip <= String.length pre)%nat ->
  match_at p (last_char prev pre) rest = Some (n0, caps0) ->
  In (take n0 rest, caps0) (scan p prev (pre +:+ rest) skip).
Proof.
  revert prev skip. induction pre as [|c pre IH]; intros prev skip Hnc Hskip Hm.
  - cbn in Hskip, Hm. assert (skip = 0%nat) as -> by lia. rewrite app_nil_s.
    destruct rest as [|x rest]; cbn [scan]; rewrite Hm; left; reflexivity.
  - rewrite app_cons_s. cbn [last_char] in Hm. cbn [String.length] in Hskip.
    destruct skip as [|k]; cbn [scan].
    + destruct (match_at p prev (String c (pre +:+ rest))) as [[n caps]|] eqn:E.
      * right. apply IH; [apply (no_cross_tail p c), Hnc| |exact Hm].
        pose proof (Hnc "" (String c pre) eq_refl ltac:(discriminate) prev n caps) as Hle.
        rewrite app_cons_s in Hle. specialize (Hle E). cbn in Hle. lia.
      * apply IH; [apply (no_cross_tail p c), Hnc|lia|exact Hm].
    + apply IH; [apply (no_cross_tail p c), Hnc|lia|exact Hm].
Qed.

Lemma findall_token p pre tok post :
  ngroups (body p) = 0%nat ->
  no_cross p pre (tok +:+ post) ->
  match_at p (last_char None pre) (tok +:+ post) = Some (String.length tok, []) ->
  In (PStr tok) (findall p (pre +:+ tok +:+ post)).
Proof.
  intros Hg Hnc Hm. unfold findall. rewrite Hg.
  pose proof (scan_reaches p pre (tok +:+ post) None 0 _ _ Hnc ltac:(lia) Hm) as Hin.
  rewrite take_app_length in Hin.
  apply (in_map (shape 0)) in Hin. exact Hin.
Qed.

End Tokens.

(** ** A phone-like token enters both sets *)

Section PhoneToken.

Lemma rstrip_by_none p s : all_of (fun c => negb (p c)) s = true -> rstrip_by p s = s.
Proof.
  induction s as [|c s IH]; [reflexivity|]. cbn. intros H. apply andb_prop in H as [Hc Hs].
  rewrite (IH Hs). apply negb_true_iff in Hc. rewrite Hc. destruct s; reflexivity.
Qed.

Lemma strip_digits tok : all_of is_digit tok = true -> strip tok = tok.
Proof.
  intros H. unfold strip.
  assert (Hns : all_of (fun c => negb (is_space c)) tok = true).
  { clear -H. induction tok as [|c tok IH]; [reflexivity|]. cbn in *.
    apply andb_prop in H as [Hc Ht]. rewrite (is_digit_not_space c Hc), (IH Ht). reflexivity. }
  assert (Hl : lstrip_by is_space tok = tok).
  { destruct tok as [|c tok]; [reflexivity|]. cbn in *. apply andb_prop in Hns as [Hc _].
    apply negb_true_iff in Hc. rewrite Hc. reflexivity. }
  rewrite Hl. apply rstrip_by_none, Hns.
Qed.

Lemma last_char_suffix a b : b ≠ "" -> last_char None (a +:+ b) = last_char None b.
Proof. intros Hb. rewrite last_char_app. apply last_char_nonempty, Hb. Qed.

Lemma phone_no_cross_pre pre tok post :
  word_opt (last_char None pre) = false -> country_code_before pre = false ->
  is_phone_token tok = true -> word_opt (head post) = false ->
  no_cross RE_PHONE pre (tok +:+ post).
Proof.
  intros Hlast Hbare Htok Hpost a b -> Hb prev n caps. rewrite match_at_phone.
  apply phone_no_cross; [exact Hb| | |exact Htok|exact Hpost].
  - rewrite <- (last_char_suffix a b Hb). exact Hlast.
  - destruct (country_code_before b) eqn:E; [|reflexivity].
    rewrite (country_code_before_app a b E) in Hbare. discriminate.
Qed.

Lemma bank_no_cross_pre pre rest :
  word_opt (last_char None pre) = false -> no_cross RE_BANK_AC pre rest.
Proof.
  intros Hlast a b -> Hb prev n caps. rewrite match_at_bank.
  apply bank_no_cross; [exact Hb|]. rewrite <- (last_char_suffix a b Hb). exact Hlast.
Qed.

Lemma token_length tok : is_phone_token tok = true -> String.length tok = 10%nat.
Proof.
  unfold is_phone_token. intros H. apply andb_prop in H as [H _]. apply andb_prop in H as [H _].
  apply Nat.eqb_eq, H.
Qed.

Lemma token_digits tok : is_phone_token tok = true -> all_of is_digit tok = true.
Proof.
  unfold is_phone_token. intros H. apply andb_prop in H as [H _]. apply andb_prop in H as [_ H].
  exact H.
Qed.

(** The token is among the matches of both patterns. *)
Lemma findall_phone_token pre tok post :
  is_phone_token tok = true -> word_opt (last_char None pre) = false ->
  word_opt (head post) = false -> country_code_before pre = false ->
  In (PStr tok) (findall RE_PHONE (pre +:+ tok +:+ post))
  /\ In (PStr tok) (findall RE_BANK_AC (pre +:+ tok +:+ post)).
Proof.
  intros Htok Hlast Hpost Hbare. split.
  - apply findall_token; [reflexivity|apply phone_no_cross_pre; assumption|].
    rewrite match_at_phone, (token_length tok Htok). apply phone_at_token; assumption.
  - apply findall_token; [reflexivity|apply bank_no_cross_pre; assumption|].
    rewrite match_at_bank, (token_length tok Htok). apply bank_at_token; assumption.
Qed.

Lemma phone_items_token text tok :
  is_phone_token tok = true -> In (PStr tok) (findall RE_PHONE text) ->
  PStr tok ∈ phone_items text.
Proof.
  intros Htok Hin. unfold phone_items. apply list_elem_of_fmap. exists tok. split.
  - unfold clean_phone. rewrite (strip_digits tok (token_digits tok Htok)). reflexivity.
  - apply list_elem_of_omap. exists (PStr tok). split; [apply list_elem_of_In, Hin|reflexivity].
Qed.

Lemma bank_items_token text tok :
  is_phone_token tok = true -> In (PStr tok) (findall RE_BANK_AC text) ->
  PStr tok ∈ bank_items text.
Proof.
  intros Htok Hin. unfold bank_items. apply list_elem_of_In, filter_In. split; [exact Hin|].
  cbn [py_len]. rewrite (token_length tok Htok). reflexivity.
Qed.

Lemma extract_heap_phone text bank upi lnk phones kws h v :
  v ∈ phone_items text -> v ∈ deref (extract_heap text bank upi lnk phones kws h) phones.
Proof.
  intros Hv. unfold extract_heap.
  apply (heap_le_add_all kws), (heap_le_add_all bank), elem_of_add_all, Hv.
Qed.

Lemma extract_heap_bank text bank upi lnk phones kws h v :
  v ∈ bank_items text -> v ∈ deref (extract_heap text bank upi lnk phones kws h) bank.
Proof.
  intros Hv. unfold extract_heap. apply (heap_le_add_all kws), elem_of_add_all, Hv.
Qed.

End PhoneToken.

(** C9. When the text holds a token of ten digits, the first from 6 to 9,
    with no word character on either side and no country code in front,
    the extract node adds this very string to the set of phone numbers
    and to the set of account numbers. *)
Theorem phone_token_in_both_sets (st : AgentState) (h : heap) (pre tok post : string) :
  incoming_text st = pre +:+ tok +:+ post ->
  is_phone_token tok = true ->
  word_opt (last_char None pre) = false ->
  word_opt (head post) = false ->
  country_code_before pre = false ->
  exists st' h' lp lb,
    node_extract st h = Done st' h'
    /\ AgentGraph.phoneNumbers st' = Some lp /\ AgentGraph.bankAccounts st' = Some lb
    /\ PStr tok ∈ deref h' lp /\ PStr tok ∈ deref h' lb.
Proof.
  intros Htext Htok Hlast Hpost Hbare.
  destruct (findall_phone_token pre tok post Htok Hlast Hpost Hbare) as [Hp Hb].
  rewrite <- Htext in Hp, Hb.
  rewrite node_extract_total.
  destruct (defaulted st h) as [[[[[bank upi] lnk] phones] kws] h0].
  eexists _, _, phones, bank. split; [reflexivity|]. split; [reflexivity|].
  split; [reflexivity|]. split.
  - apply extract_heap_phone, phone_items_token; assumption.
  - apply extract_heap_bank, bank_items_token; assumption.
Qed.

(** "call 9876543210 now": the token stands between two spaces. *)
Lemma phone_token_in_both_sets_witness :
  let st := state_in (Scenarios.event_of "s1" "call 9876543210 now")
              (Session 0 0 0 false "" 1%positive 2%positive 3%positive 4%positive 5%positive) in
  exists st' h' lp lb,
    node_extract st ∅ = Done st' h'
    /\ AgentGraph.phoneNumbers st' = Some lp /\ AgentGraph.bankAccounts st' = Some lb
    /\ PStr "9876543210" ∈ deref h' lp /\ PStr "9876543210" ∈ deref h' lb.
Proof.
  cbv zeta.
  apply (phone_token_in_both_sets
           (state_in (Scenarios.event_of "s1" "call 9876543210 now")
              (Session 0 0 0 false "" 1%positive 2%positive 3%positive 4%positive 5%positive))
           ∅ "call " "9876543210" " now"); vm_compute; reflexivity.
Defined.

(** With the country code in front the phone set receives the whole
    match, prefix included; the account set receives the ten digits. *)
Lemma country_code_is_kept :
  findall RE_PHONE "ring+91 9876543210" = [PStr "+91 9876543210"]
  /\ findall RE_BANK_AC "ring+91 9876543210" = [PStr "9876543210"].
Proof. split; vm_compute; reflexivity. Qed.
